(** * UI-coverage orchestration of fixtures/ui_coverage.py

    A shallow embedding of [CoverageManager] and [UiCoveragePlugin]: the
    Python methods become computations in a state-and-exception monad over
    an explicit [World] (the pytest store, the shared configuration, the
    appliances reached over SSH and the trace of everything the code logs,
    prints or executes remotely). *)

From stdpp Require Import base option list strings gmap fin_maps sets.
From Stdlib Require Import ZArith NArith Lia.

(** ** Exceptions *)

(** Instances of Python's [Exception] class that can travel through the
    coverage code: the one the module raises itself, the [KeyError] of a
    failed [conf] lookup, and whatever a collaborator (SSH client,
    appliance object) raises. *)
Inductive exn : Type :=
  | ApplianceVersionException (msg : string)
  | KeyError (key : string)
  | ApplianceException (msg : string)
  | TimedOutError (msg : string)
  | SCPException (msg : string)
  | OtherException (name : string).

#[global] Instance exn_eq_dec : EqDecision exn.
Proof. solve_decision. Defined.

(** Outcome of a Python call: a returned value or a raised exception. *)
Inductive Res (A : Type) : Type :=
  | Ok (a : A)
  | Raise (e : exn).
Arguments Ok {A} a.
Arguments Raise {A} e.

Definition is_Ok {A} (r : Res A) : bool :=
  match r with Ok _ => true | Raise _ => false end.

(** ** Remote commands *)

(** The shell commands the module sends through [ssh_client.run_command].
    [command_line] gives each one the text it has in the source. *)
Inductive Command : Type :=
  | GemInstallSimplecov
  | YumInstallGit
  | Bundle
  | RmCoverageRoot
  | TestMarker
  | RpmQueryPatch
  | YumInstallPatch
  | RmYumRepo
  | ApplyPatch
  | StopEvm
  | ScpCoverage (addr passwd : string)
  | TarRawCoverage.

#[global] Instance Command_eq_dec : EqDecision Command.
Proof. solve_decision. Defined.

(** Paths on the appliance ([rails_root] and what is joined to it). *)
Definition rails_root : string := "/var/www/miq/vmdb".
Definition path_join (dir name : string) : string := dir +:+ "/" +:+ name.
Definition appliance_coverage_root : string := path_join rails_root "coverage".
Definition bundler_d : string := path_join rails_root "bundler.d".
Definition coverage_hook_file_name : string := "coverage_hook.rb".
Definition coverage_hook_patch_name : string := "manageiq-17302.patch".
Definition remote_coverage_hook_patch : string :=
  path_join rails_root coverage_hook_patch_name.
Definition remote_yum_repo : string := "/etc/yum.repos.d/local.repo".
Definition raw_archive : string := "/tmp/ui-coverage-raw.tgz".
(** The file the manageiq patch creates; its presence is what
    [_install_coverage_hook] tests. *)
Definition marker_file : string := path_join rails_root "lib/code_coverage.rb".

Definition command_line (c : Command) : string :=
  match c with
  | GemInstallSimplecov =>
      "gem install --install-dir /opt/rh/cfme-gemset/ -v0.9.2 simplecov"
  | YumInstallGit => "yum -y install git"
  | Bundle => "cd " +:+ rails_root +:+ "; bundle"
  | RmCoverageRoot => "rm -rf " +:+ appliance_coverage_root
  | TestMarker => "cd " +:+ rails_root +:+ "; [ -e lib/code_coverage.rb ]"
  | RpmQueryPatch => "rpm -q patch"
  | YumInstallPatch => "yum install -y patch"
  | RmYumRepo => "rm " +:+ remote_yum_repo
  | ApplyPatch =>
      "cd " +:+ rails_root +:+ "; patch -p1 < " +:+ remote_coverage_hook_patch
  | StopEvm => "systemctl stop evmserverd"
  | ScpCoverage addr passwd =>
      "sshpass -p " +:+ passwd +:+ " " +:+
      "scp -o StrictHostKeyChecking=no " +:+
      "-r /var/www/miq/vmdb/coverage/* " +:+
      addr +:+ ":/var/www/miq/vmdb/coverage/"
  | TarRawCoverage =>
      "cd /var/www/miq/vmdb/;" +:+ "tar czf /tmp/ui-coverage-raw.tgz coverage/"
  end.

(** What [run_command] returns: [result.success] (also the truth value of
    the result) and the captured output ([str(result)]). *)
Record SSHResult : Type := mkResult { success : bool; output : string }.

(** A call that leaves the test process for an appliance. *)
Inductive Call : Type :=
  | RunCommand (host : string) (cmd : Command) (timeout : option nat)
  | PutFile (host : string) (local_path remote_path : string)
  | GetFile (host : string) (remote_path local_path : string)
  | RestartEvmService (host : string)
  | WaitForWebUi (host : string).

#[global] Instance Call_eq_dec : EqDecision Call.
Proof. solve_decision. Defined.

(** How the environment may disturb a call: not at all, by making the
    remote command fail with some output (non-zero exit, timeout), or by
    raising in the client. *)
Inductive Fault : Type :=
  | NoFault
  | CommandFails (out : string)
  | Throws (e : exn).

(** ** The trace *)

(** Everything observable the coverage code does, in the order it does it. *)
Inductive Event : Type :=
  | LogInfo (logger msg : string)
  | LogError (logger msg : string)
  | LogException (logger : string) (e : exn)
  | SlaveMessage (slaveid msg : string)
  | ParallelPrint (msg : string)
  | TerminalSep (sep msg : string)
  | WriteLocalFile (path content : string)
  | Called (c : Call)
  | ConfSaved (name : string)
  | TestsRun.

#[global] Instance Event_eq_dec : EqDecision Event.
Proof. solve_decision. Defined.

(** ** State *)

(** [fixtures.pytest_store.store], as far as the module reads it.
    [parallelizer_role] is [Some "master"], [Some "slave"] or anything else
    (a standalone run); [slave_manager] carries the slave id when set. *)
Record Store : Type := mkStore {
  parallelizer_role : option string;
  slave_manager : option string;
  parallel_session : bool;
  current_appliance : string
}.

(** An appliance as the commands above see it. [coverage_dir] names the
    hosts whose raw result sets lie under its coverage root. *)
Record HostState : Type := mkHost {
  evm_running : bool;
  files : gset string;
  coverage_dir : gset string
}.

Definition fresh_host : HostState :=
  {| evm_running := true; files := ∅; coverage_dir := ∅ |}.

(** The values of the keys [name], [baseurl], [enabled] and [gpgcheck] of
    [cfme_data['basic_info']['local_yum_repo']], which the template of the
    repository file is filled with. *)
Record RepoData : Type := mkRepo {
  repo_name : string; repo_baseurl : string;
  repo_enabled : string; repo_gpgcheck : string
}.

Section Coverage.

(** ** What the module imports and the sources do not contain *)

(** [cfme.utils.version]: the type of appliance versions and its
    comparison with a version given as text ([version < '5.8']). *)
Variable Version : Type.
Variable version_lt : Version → string → bool.
(** [cfme.utils.quote.quote], shell quoting. *)
Variable quote : string → string.
(** [cfme.utils.path]: the local directories the paths are joined to. *)
Variables scripts_data_path conf_path log_path : string.

(** Local paths, as the module computes them at import. *)
Definition coverage_data : string := path_join scripts_data_path "coverage".
Definition gemfile : string := path_join coverage_data "coverage_gem.rb".
Definition coverage_hook : string := path_join coverage_data coverage_hook_file_name.
Definition coverage_merger : string := path_join coverage_data "coverage_merger.rb".
Definition local_coverage_hook_patch : string :=
  path_join coverage_data coverage_hook_patch_name.
Definition coverage_output_dir : string := path_join log_path "coverage".
Definition coverage_results_archive : string :=
  path_join coverage_output_dir "coverage-results.tgz".
Definition coverage_appliance_conf : string := path_join conf_path ".ui-coverage".
Definition local_yum_repo : string := path_join log_path "yum.local.repo".

(** ** The world a test process runs in *)

(** [store], [conf_runtime] and the trace belong to one process;
    [conf_saved] (the file [conf.save('.ui-coverage')] writes), the
    appliances and the local files are shared by the processes of a
    distributed run. [basic_info] is [cfme_data['basic_info']] as far as
    the module reads it: [None] when [cfme_data] has no such key, else its
    [local_yum_repo] entry, if it has one, as a dictionary of texts.
    [oracle] fixes, for every instant and call, how the environment
    disturbs it; [clock] counts the calls made. *)
Record World : Type := mkWorld {
  store : Store;
  conf_runtime : option string;
  conf_saved : option string;
  basic_info : option (option (gmap string string));
  appliance_version : string → Version;
  ssh_password : string → string;
  hosts : gmap string HostState;
  local_files : gset string;
  oracle : nat → Call → Fault;
  clock : nat;
  trace : list Event
}.

Definition emit (e : Event) (w : World) : World :=
  mkWorld (store w) (conf_runtime w) (conf_saved w) (basic_info w)
    (appliance_version w) (ssh_password w) (hosts w) (local_files w)
    (oracle w) (clock w) (trace w ++ [e]).
Definition tick (w : World) : World :=
  mkWorld (store w) (conf_runtime w) (conf_saved w) (basic_info w)
    (appliance_version w) (ssh_password w) (hosts w) (local_files w)
    (oracle w) (S (clock w)) (trace w).
Definition set_hosts (hs : gmap string HostState) (w : World) : World :=
  mkWorld (store w) (conf_runtime w) (conf_saved w) (basic_info w)
    (appliance_version w) (ssh_password w) hs (local_files w)
    (oracle w) (clock w) (trace w).
Definition set_local_files (fs : gset string) (w : World) : World :=
  mkWorld (store w) (conf_runtime w) (conf_saved w) (basic_info w)
    (appliance_version w) (ssh_password w) (hosts w) fs
    (oracle w) (clock w) (trace w).
Definition set_conf_runtime (c : option string) (w : World) : World :=
  mkWorld (store w) c (conf_saved w) (basic_info w)
    (appliance_version w) (ssh_password w) (hosts w) (local_files w)
    (oracle w) (clock w) (trace w).
Definition set_conf_saved (c : option string) (w : World) : World :=
  mkWorld (store w) (conf_runtime w) c (basic_info w)
    (appliance_version w) (ssh_password w) (hosts w) (local_files w)
    (oracle w) (clock w) (trace w).

(** ** The monad: state passing with exceptions *)

Definition M (A : Type) : Type := World → Res A * World.

Definition ret {A} (a : A) : M A := λ w, (Ok a, w).
Definition bind {A B} (m : M A) (k : A → M B) : M B := λ w,
  match m w with
  | (Ok a, w') => k a w'
  | (Raise e, w') => (Raise e, w')
  end.

Declare Scope cov_scope.
Delimit Scope cov_scope with cov.
Bind Scope cov_scope with M.
Notation "x ← y ; z" := (bind y (λ x, z))
  (at level 20, y at level 100, z at level 200, only parsing) : cov_scope.
Notation "x ;; z" := (bind x (λ _, z))
  (at level 100, z at level 200, only parsing, right associativity) : cov_scope.
Local Open Scope cov_scope.

Definition raise {A} (e : exn) : M A := λ w, (Raise e, w).
(** [try: m except Exception as exc: h exc]. *)
Definition try_except {A} (m : M A) (h : exn → M A) : M A := λ w,
  match m w with
  | (Ok a, w') => (Ok a, w')
  | (Raise e, w') => h e w'
  end.
Definition get_store : M Store := λ w, (Ok (store w), w).
Definition act (f : World → World) : M unit := λ w, (Ok tt, f w).
Definition record (e : Event) : M unit := act (emit e).

(** ** The environment: what the calls do on the appliances *)

Definition host_of (hs : gmap string HostState) (h : string) : HostState :=
  default fresh_host (hs !! h).
Definition update_host (h : string) (f : HostState → HostState)
    (hs : gmap string HostState) : gmap string HostState :=
  <[h := f (host_of hs h)]> hs.

Definition add_file (p : string) (s : HostState) : HostState :=
  {| evm_running := evm_running s; files := {[p]} ∪ files s;
     coverage_dir := coverage_dir s |}.
Definition remove_file (p : string) (s : HostState) : HostState :=
  {| evm_running := evm_running s; files := files s ∖ {[p]};
     coverage_dir := coverage_dir s |}.
Definition set_running (b : bool) (s : HostState) : HostState :=
  {| evm_running := b; files := files s; coverage_dir := coverage_dir s |}.
Definition set_coverage (c : gset string) (s : HostState) : HostState :=
  {| evm_running := evm_running s; files := files s; coverage_dir := c |}.

(** A command that reaches the appliance and runs there undisturbed.
    Stopping a running server lets its exit hook write the host's own
    result set; [scp] adds the sender's result sets to the receiver's;
    [patch] needs the patch file, refuses a tree that is already patched
    and otherwise creates the marker file; the remaining commands only
    report success. *)
Definition exec_command (h : string) (c : Command)
    (hs : gmap string HostState) : SSHResult * gmap string HostState :=
  let s := host_of hs h in
  match c with
  | RmCoverageRoot => (mkResult true "", update_host h (set_coverage ∅) hs)
  | TestMarker => (mkResult (bool_decide (marker_file ∈ files s)) "", hs)
  | ApplyPatch =>
      if bool_decide (remote_coverage_hook_patch ∈ files s) &&
         negb (bool_decide (marker_file ∈ files s))
      then (mkResult true "patching file lib/code_coverage.rb",
            update_host h (add_file marker_file) hs)
      else (mkResult false "patch failed", hs)
  | RmYumRepo => (mkResult true "", update_host h (remove_file remote_yum_repo) hs)
  | StopEvm =>
      (mkResult true "",
       update_host h (λ s, set_running false
         (if evm_running s then set_coverage ({[h]} ∪ coverage_dir s) s else s)) hs)
  | ScpCoverage addr _ =>
      (mkResult true "",
       update_host addr (λ t, set_coverage (coverage_dir s ∪ coverage_dir t) t) hs)
  | TarRawCoverage => (mkResult true "", update_host h (add_file raw_archive) hs)
  | GemInstallSimplecov | YumInstallGit | Bundle | RpmQueryPatch | YumInstallPatch =>
      (mkResult true "", hs)
  end.

(** Every call is recorded and advances the clock; the oracle then says
    how it is disturbed. *)
Definition external (c : Call) : M Fault := λ w,
  (Ok (oracle w (clock w) c), emit (Called c) (tick w)).

(** [ssh_client.run_command]: a failing command is a result, not an
    exception. *)
Definition run_command (h : string) (c : Command) (timeout : option nat)
    : M SSHResult :=
  f ← external (RunCommand h c timeout);
  match f with
  | Throws e => raise e
  | CommandFails out => ret (mkResult false out)
  | NoFault => λ w,
      let '(r, hs) := exec_command h c (hosts w) in (Ok r, set_hosts hs w)
  end.

(** [ssh_client.put_file]; the module never looks at what it returns. *)
Definition put_file (h local remote : string) : M unit :=
  f ← external (PutFile h local remote);
  match f with
  | Throws e => raise e
  | CommandFails _ => ret tt
  | NoFault => act (λ w, set_hosts (update_host h (add_file remote) (hosts w)) w)
  end.

(** [ssh_client.get_file]: copying a file that is not there raises. *)
Definition get_file (h remote local : string) : M unit :=
  f ← external (GetFile h remote local);
  match f with
  | Throws e => raise e
  | CommandFails out => raise (SCPException out)
  | NoFault => λ w,
      if bool_decide (remote ∈ files (host_of (hosts w) h))
      then (Ok tt, set_local_files ({[local]} ∪ local_files w) w)
      else (Raise (SCPException "No such file or directory"), w)
  end.

(** Modelled from the spec: [IPAppliance.restart_evm_service] and
    [IPAppliance.wait_for_web_ui] are not in the sources. 4.2: install
    restarts the instrumented service and blocks until its web endpoint
    responds, and fails fatally if the restart or the health check
    fails: a failure is an exception, a normal return means the service
    runs (again). *)
Definition restart_evm_service (h : string) : M unit :=
  f ← external (RestartEvmService h);
  match f with
  | Throws e => raise e
  | CommandFails out => raise (ApplianceException out)
  | NoFault => act (λ w, set_hosts (update_host h (set_running true) (hosts w)) w)
  end.

Definition wait_for_web_ui (h : string) : M unit :=
  f ← external (WaitForWebUi h);
  match f with
  | Throws e => raise e
  | CommandFails out => raise (TimedOutError out)
  | NoFault => λ w,
      if evm_running (host_of (hosts w) h) then (Ok tt, w)
      else (Raise (TimedOutError "web UI did not come up"), w)
  end.

(** ** CoverageManager *)

Record CoverageManager : Type := mkManager {
  ipapp : string;   (* the appliance, known by its address *)
  log : string      (* the name of its sublogger *)
}.

Definition log_info (self : CoverageManager) (msg : string) : M unit :=
  record (LogInfo (log self) msg).
Definition log_error (self : CoverageManager) (msg : string) : M unit :=
  record (LogError (log self) msg).
Definition log_exception (self : CoverageManager) (e : exn) : M unit :=
  record (LogException (log self) e).

Definition version_of (h : string) : M Version := λ w,
  (Ok (appliance_version w h), w).

(** [CoverageManager.__init__]. *)
Definition CoverageManager_init (ipappliance : string) : M CoverageManager :=
  st ← get_store;
  let sublogger_name :=
    match slave_manager st with
    | Some slaveid => slaveid +:+ " coverage"
    | None => "coverage"
    end in
  let self := {| ipapp := ipappliance; log := sublogger_name |} in
  v ← version_of (ipapp self);
  if version_lt v "5.8" then
    raise (ApplianceVersionException
      "Coverage statistics collection is only supported in appliances >= 5.8")
  else ret self.

(** Modelled from the spec: [IPAppliance.coverage], which [manager()]
    reads, is not in the sources. 4.2: a single coordinator instance per
    test session, lazily constructed; 3: a host's identity is its network
    address. The instance is the [CoverageManager] of the current
    appliance; constructing it again yields the same value. *)
Definition manager : M CoverageManager :=
  st ← get_store;
  CoverageManager_init (current_appliance st).

(** Modelled from the spec: [IPAppliance.from_url] and [.hostname] are
    not in the sources. 3: a host is identified by its network address,
    so the appliance built from an address is that address, and two
    appliances differ when their addresses do. *)
Definition from_url (url : string) : string := url.
Definition hostname (appliance : string) : string := appliance.

(** [conf['.ui-coverage']['collection_appliance']]: the value set at run
    time in this process, else the saved one, else a [KeyError]. *)
Definition conf_collection_appliance : M string := λ w,
  match conf_runtime w with
  | Some a => (Ok a, w)
  | None =>
      match conf_saved w with
      | Some a => (Ok a, w)
      | None => (Raise (KeyError "collection_appliance"), w)
      end
  end.

(** The [collection_appliance] property. *)
Definition collection_appliance (self : CoverageManager) : M string :=
  st ← get_store;
  if decide (parallelizer_role st = Some "slave") then
    url ← conf_collection_appliance;
    ret (from_url url)
  else
    ret (current_appliance st).

(** Where [print_message] sends its message: to the slave manager, else
    to the parallel session, else to the terminal reporter. *)
Definition report_event (st : Store) (message : string) : Event :=
  match slave_manager st with
  | Some slaveid => SlaveMessage slaveid message
  | None =>
      if parallel_session st then ParallelPrint message
      else TerminalSep "-" message
  end.

Definition print_message (self : CoverageManager) (message : string) : M unit :=
  log_info self message;;
  let message := "coverage: " +:+ message in
  st ← get_store;
  record (report_event st message).

(** [version.pick({LOWEST: _gem_install, LATEST: _bundle_install})]: the
    entry of the greatest key not above the current appliance's version,
    so [_bundle_install] exactly when that version is not below
    [LATEST]. *)
Definition _install_simplecov (self : CoverageManager) : M unit :=
  log_info self "Installing coverage gem on appliance";;
  put_file (ipapp self) gemfile bundler_d;;
  let _gem_install : M unit :=
    _ ← run_command (ipapp self) GemInstallSimplecov None; ret tt in
  let _bundle_install : M unit :=
    _ ← run_command (ipapp self) YumInstallGit None;
    _ ← run_command (ipapp self) Bundle None; ret tt in
  st ← get_store;
  v ← version_of (current_appliance st);
  if version_lt v "latest" then _gem_install else _bundle_install.

(** The line feed, character 10. *)
Definition newline : string :=
  String (Ascii.Ascii false true false true false false false false) EmptyString.

Definition yum_repo_data (repo_data : RepoData) : string :=
  newline +:+
  "[" +:+ repo_name repo_data +:+ "]" +:+ newline +:+
  "name=" +:+ repo_name repo_data +:+ newline +:+
  "baseurl=" +:+ repo_baseurl repo_data +:+ newline +:+
  "enabled=" +:+ repo_enabled repo_data +:+ newline +:+
  "gpgcheck=" +:+ repo_gpgcheck repo_data +:+ newline.

(** [cfme_data['basic_info']['local_yum_repo']]: two lookups, each with
    its own [KeyError]. *)
Definition cfme_data_local_yum_repo : M (gmap string string) := λ w,
  match basic_info w with
  | None => (Raise (KeyError "basic_info"), w)
  | Some None => (Raise (KeyError "local_yum_repo"), w)
  | Some (Some repo_data) => (Ok repo_data, w)
  end.

(** [d[key]] on a dictionary. *)
Definition dict_get (d : gmap string string) (key : string) : M string := λ w,
  match d !! key with
  | Some v => (Ok v, w)
  | None => (Raise (KeyError key), w)
  end.

Definition write_local_file (path content : string) : M unit :=
  record (WriteLocalFile path content);;
  act (λ w, set_local_files ({[path]} ∪ local_files w) w).

Definition _install_coverage_hook (self : CoverageManager) : M bool :=
  _ ← run_command (ipapp self) RmCoverageRoot None;
  put_file (ipapp self) coverage_hook
    (path_join (path_join rails_root "config") coverage_hook_file_name);;
  result ← run_command (ipapp self) TestMarker None;
  if success result then ret true
  else
    log_info self "Patching system with manageiq patch #17302";;
    put_file (ipapp self) local_coverage_hook_patch remote_coverage_hook_patch;;
    result ← run_command (ipapp self) RpmQueryPatch None;
    (if negb (success result) then
       repo_data ← cfme_data_local_yum_repo;
       name ← dict_get repo_data "name";
       baseurl ← dict_get repo_data "baseurl";
       enabled ← dict_get repo_data "enabled";
       gpgcheck ← dict_get repo_data "gpgcheck";
       write_local_file local_yum_repo
         (yum_repo_data (mkRepo name baseurl enabled gpgcheck));;
       put_file (ipapp self) local_yum_repo remote_yum_repo;;
       _ ← run_command (ipapp self) YumInstallPatch None;
       _ ← run_command (ipapp self) RmYumRepo None;
       ret tt
     else ret tt);;
    result ← run_command (ipapp self) ApplyPatch None;
    ret (success result).

(** [quote(self.ipapp.ssh_client._connect_kwargs['password'])]. *)
Definition connect_password (h : string) : M string := λ w,
  (Ok (quote (ssh_password w h)), w).

Definition _collect_reports (self : CoverageManager) : M unit :=
  _ ← run_command (ipapp self) StopEvm None;
  st ← get_store;
  coll ← collection_appliance self;
  if decide (current_appliance st ≠ coll) then
    coll ← collection_appliance self;
    print_message self ("sending reports to " +:+ hostname coll);;
    addr ← collection_appliance self;
    passwd ← connect_password (ipapp self);
    result ← run_command (ipapp self)
      (ScpCoverage (hostname addr) passwd) (Some 1800);
    if negb (success result) then
      print_message self ("There was an error sending reports: " +:+ output result)
    else ret tt
  else ret tt.

Definition _retrieve_coverage_reports (self : CoverageManager) : M unit :=
  coll ← collection_appliance self;
  _ ← run_command coll TarRawCoverage None;
  get_file coll raw_archive coverage_results_archive.

Definition install (self : CoverageManager) : M unit :=
  print_message self "installing";;
  _install_simplecov self;;
  _ ← _install_coverage_hook self;
  restart_evm_service (ipapp self);;
  wait_for_web_ui (ipapp self).

Definition collect (self : CoverageManager) : M unit :=
  print_message self "collecting reports";;
  _collect_reports self;;
  restart_evm_service (ipapp self).

Definition merge (self : CoverageManager) : M unit :=
  print_message self "merging reports";;
  try_except
    (_retrieve_coverage_reports self)
    (λ exc,
      log_error self "Error merging coverage reports";;
      log_exception self exc;;
      print_message self "merging reports failed, error has been logged").

(** ** UiCoveragePlugin *)

(** The exit status pytest hands to [pytest_sessionfinish]. *)
Inductive ExitStatus : Type := EXIT_OK | EXIT_INTERNALERROR.

Definition clean_coverage_dir : M unit :=
  act (λ w, set_local_files (local_files w ∖ {[coverage_results_archive]}) w).

(** [coverage_appliance_conf.check() and coverage_appliance_conf.remove()]
    removes the local file [conf/.ui-coverage] when it is there. That is
    not the file of the configuration store: see [conf_save]. *)
Definition pytest_configure : M unit :=
  st ← get_store;
  (if decide (parallelizer_role st ≠ Some "slave") then clean_coverage_dir
   else ret tt);;
  act (λ w, set_local_files (local_files w ∖ {[coverage_appliance_conf]}) w).

(** Modelled from the spec: [cfme.utils.conf] is not in the sources. 4.2
    and 6: the collection appliance is a run-scoped configuration value,
    decided once by the leader at session start and persisted to a shared
    config store, readable by all worker processes. The store
    named ['.ui-coverage'] keeps its values in a file of its own
    ([.ui-coverage.yaml] in the configuration directory), which
    [conf.save] writes and a lookup in [conf] reads; [conf_saved] is the
    value in that file. *)
Definition conf_save : M unit :=
  record (ConfSaved ".ui-coverage");;
  act (λ w, set_conf_saved (conf_runtime w) w).

Definition pytest_sessionstart : M unit :=
  st ← get_store;
  if decide (parallelizer_role st = Some "master") then
    m ← manager;
    coll ← collection_appliance m;
    let collection_appliance_address := hostname coll in
    act (set_conf_runtime (Some collection_appliance_address));;
    conf_save
  else ret tt.

(** A hook wrapper: [yield] runs the other implementations of the hook
    and hands back their outcome without raising; the code after it runs
    in any case, and an exception of the other implementations is raised
    again once the wrapper is done. *)
Definition pytest_collection_finish (others : M unit) : M unit := λ w,
  let '(outcome, w1) := others w in
  (st ← get_store;
   (if decide (parallelizer_role st ≠ Some "master") then
      m ← manager; install m
    else ret tt);;
   (λ w2, (outcome, w2))) w1.

Definition pytest_sessionfinish (exitstatus : ExitStatus) : M unit :=
  st ← get_store;
  (if decide (parallelizer_role st ≠ Some "master") then
     m ← manager; collect m
   else ret tt);;
  if decide (parallelizer_role st = Some "slave") then ret tt
  else
    m ← manager; merge m.

(** ** The session, as pytest drives the hooks *)

(** The body of a session: collection, closed by the collection-finish
    hooks, then the test loop. *)
Definition pytest_main : M unit :=
  pytest_collection_finish (ret tt);;
  record TestsRun.

(** pytest's session wrapper: configure, session start, the body, and
    session finish once the session has started. An exception of a hook or
    of the body is an internal error: the rest of the body is skipped,
    session finish still runs. *)
Definition wrap_session : M ExitStatus :=
  pytest_configure;;
  (λ w,
    match pytest_sessionstart w with
    | (Raise _, w1) => (Ok EXIT_INTERNALERROR, w1)
    | (Ok _, w1) =>
        let '(r, w2) := pytest_main w1 in
        let exitstatus := if is_Ok r then EXIT_OK else EXIT_INTERNALERROR in
        (pytest_sessionfinish exitstatus;; ret exitstatus) w2
    end).

(** ** Phases, read off the trace *)

(** Each phase method announces itself first, through [print_message]. *)
Inductive Phase : Type := Install | Collect | Merge.

#[global] Instance Phase_eq_dec : EqDecision Phase.
Proof. solve_decision. Defined.

Definition phase_of_event (e : Event) : option Phase :=
  match e with
  | LogInfo _ msg =>
      if decide (msg = "installing") then Some Install
      else if decide (msg = "collecting reports") then Some Collect
      else if decide (msg = "merging reports") then Some Merge
      else None
  | _ => None
  end.

Definition phases (evs : list Event) : list Phase := omap phase_of_event evs.

(** Events the coverage code itself can emit. *)
Definition coverage_event (e : Event) : Prop := e ≠ TestsRun.
(** Events that do not announce a phase. *)
Definition quiet (e : Event) : Prop := phase_of_event e = None.

(** ** Notions the statements are written in *)

(** [preserves R m]: every run of [m] relates the world it starts in to
    the world it ends in, whether it returns or raises. *)
Definition preserves {A} (R : World → World → Prop) (m : M A) : Prop :=
  ∀ w, R w (m w).2.

(** A relation between worlds is a frame for events [okE] and appliance
  changes [okH] when every elementary step of the monad that emits such
  an event or makes such a change stays inside it. *)
Class Frame (R : World → World → Prop) (okE : Event → Prop)
  (okH : gmap string HostState → gmap string HostState → Prop) : Prop := {
  frame_pre :: PreOrder R;
  frame_okH_refl hs : okH hs hs;
  frame_emit e w : okE e → R w (emit e w);
  frame_tick w : R w (tick w);
  frame_hosts hs w : okH (hosts w) hs → R w (set_hosts hs w);
  frame_files fs w : R w (set_local_files fs w)
}.

(** An event that is no transfer of reports, or is a transfer to
    [coll]. *)
Definition sends_to (coll : string) (e : Event) : Prop :=
  ∀ h a p t, e = Called (RunCommand h (ScpCoverage a p) t) → a = hostname coll.

(** The world in which the session-finish hook of a session runs, when
    session start returned. *)
Definition at_sessionfinish (w : World) : World :=
  (pytest_main (pytest_sessionstart (pytest_configure w).2).2).2.

(** The world [pytest_configure] leaves. *)
Definition configured (w : World) : World :=
  set_local_files
    ((if decide (parallelizer_role (store w) ≠ Some "slave")
      then local_files w ∖ {[coverage_results_archive]} else local_files w)
     ∖ {[coverage_appliance_conf]}) w.

(** The arguments of the template when every lookup behind them
    succeeds. *)
Definition repo_entry (d : gmap string string) : option RepoData :=
  match d !! "name", d !! "baseurl", d !! "enabled", d !! "gpgcheck" with
  | Some name, Some baseurl, Some enabled, Some gpgcheck =>
      Some (mkRepo name baseurl enabled gpgcheck)
  | _, _, _, _ => None
  end.

(** The [local_yum_repo] entry of [cfme_data] with its four keys, when
    [cfme_data] has it. *)
Definition local_yum_repo_data (w : World) : option RepoData :=
  match basic_info w with
  | Some (Some d) => repo_entry d
  | _ => None
  end.

(** The first key that is missing on the way to the four values. *)
Definition missing_key (w : World) : string :=
  match basic_info w with
  | None => "basic_info"
  | Some None => "local_yum_repo"
  | Some (Some d) =>
      if d !! "name" is None then "name"
      else if d !! "baseurl" is None then "baseurl"
      else if d !! "enabled" is None then "enabled"
      else "gpgcheck"
  end.

(** Reading the four values out of [cfme_data] and going on with them. *)
Definition with_repo_data {A} (k : RepoData → M A) : M A :=
  repo_data ← cfme_data_local_yum_repo;
  name ← dict_get repo_data "name";
  baseurl ← dict_get repo_data "baseurl";
  enabled ← dict_get repo_data "enabled";
  gpgcheck ← dict_get repo_data "gpgcheck";
  k (mkRepo name baseurl enabled gpgcheck).

(** Setting up the temporary repository from the four values, installing
    [patch] from it and removing it again. *)
Definition yum_setup (self : CoverageManager) (d : RepoData) : M unit :=
  write_local_file local_yum_repo (yum_repo_data d);;
  put_file (ipapp self) local_yum_repo remote_yum_repo;;
  _ ← run_command (ipapp self) YumInstallPatch None;
  _ ← run_command (ipapp self) RmYumRepo None;
  ret tt.

(** What no hook changes: the store, the appliances' versions and
    passwords, [cfme_data] and the oracle. *)
Definition same_env (w w' : World) : Prop :=
  store w' = store w ∧ appliance_version w' = appliance_version w ∧
  ssh_password w' = ssh_password w ∧
  basic_info w' = basic_info w ∧ oracle w' = oracle w.

(** The configuration, in the process and saved. *)
Definition same_conf (w w' : World) : Prop :=
  conf_runtime w' = conf_runtime w ∧ conf_saved w' = conf_saved w.

(** The trace only grows, by events that satisfy [P]. *)
Definition emits (P : Event → Prop) (w w' : World) : Prop :=
  ∃ evs, trace w' = trace w ++ evs ∧ Forall P evs.

(** Appliance [h] carries the marker file; once there, it stays. *)
Definition marker_on (hs : gmap string HostState) (h : string) : Prop :=
  marker_file ∈ files (host_of hs h).

Definition keeps_marker (h : string) (w w' : World) : Prop :=
  marker_on (hosts w) h → marker_on (hosts w') h.

(** The events of a run: what the trace has gained. *)
Definition new_events (w w' : World) : list Event :=
  drop (length (trace w)) (trace w').

(** The coverage manager of the current appliance. *)
Definition current_manager (st : Store) : CoverageManager :=
  {| ipapp := current_appliance st;
     log := match slave_manager st with
            | Some slaveid => slaveid +:+ " coverage"
            | None => "coverage"
            end |}.

(** The value of the [collection_appliance] property: it reads the store
    and the configuration and changes nothing. *)
Definition coordinator (w : World) : Res string :=
  if decide (parallelizer_role (store w) = Some "slave") then
    match conf_runtime w with
    | Some a => Ok (from_url a)
    | None =>
        match conf_saved w with
        | Some a => Ok (from_url a)
        | None => Raise (KeyError "collection_appliance")
        end
    end
  else Ok (current_appliance (store w)).

(** The fault the oracle has in store for the [n]-th call from now. *)
Definition fault_at (w : World) (n : nat) (c : Call) : Fault :=
  oracle w (n + clock w) c.

(** The two calls [_collect_reports] can make: stopping the server and
    copying the coverage directory to the coordinator. *)
Definition stop_call (self : CoverageManager) : Call :=
  RunCommand (ipapp self) StopEvm None.

Definition scp_call (self : CoverageManager) (w : World) (coll : string) : Call :=
  RunCommand (ipapp self)
    (ScpCoverage (hostname coll) (quote (ssh_password w (ipapp self))))
    (Some 1800).

Definition is_scp (e : Event) : Prop :=
  ∃ h a p t, e = Called (RunCommand h (ScpCoverage a p) t).

(** What [_collect_reports] does once the server is stopped. *)
Definition send_reports (self : CoverageManager) : M unit :=
  st ← get_store;
  coll ← collection_appliance self;
  if decide (current_appliance st ≠ coll) then
    coll ← collection_appliance self;
    print_message self ("sending reports to " +:+ hostname coll);;
    addr ← collection_appliance self;
    passwd ← connect_password (ipapp self);
    result ← run_command (ipapp self)
      (ScpCoverage (hostname addr) passwd) (Some 1800);
    if negb (success result) then
      print_message self ("There was an error sending reports: " +:+ output result)
    else ret tt
  else ret tt.

(** The world after [print_message self msg]. *)
Definition announce (self : CoverageManager) (msg : string) (w : World) : World :=
  emit (report_event (store w) ("coverage: " +:+ msg))
    (emit (LogInfo (log self) msg) w).

(** The outcome is an exception. *)
Definition raises {A} (r : Res A) : Prop := ∃ e, r = Raise e.

(** The events of the patch step: uploading the patch file and running
    [patch]. *)
Definition applies_patch (e : Event) : bool :=
  match e with
  | Called (RunCommand _ ApplyPatch _) => true
  | Called (PutFile _ _ remote) => bool_decide (remote = remote_coverage_hook_patch)
  | _ => false
  end.

(** Neither the patch command nor the upload of the patch file. *)
Definition no_patch (e : Event) : Prop := applies_patch e = false.

(** What a run that avoids the patch step maintains: the environment,
    the marker file and a trace free of patch events. *)
Definition patch_free (h : string) (w w' : World) : Prop :=
  same_env w w' ∧ keeps_marker h w w' ∧ emits no_patch w w'.

Definition patch_free_host (h : string)
    (hs hs' : gmap string HostState) : Prop :=
  marker_on hs h → marker_on hs' h.

(** The appliance is patched and the environment lets the marker test
    through. *)
Definition patched (self : CoverageManager) (w : World) : Prop :=
  marker_on (hosts w) (ipapp self) ∧
  ∀ t, oracle w t (RunCommand (ipapp self) TestMarker None) = NoFault.

(** The run from [w] to [w'] announces some of the phases [ps], in the
    order of [ps]. *)
Definition announces (ps : list Phase) (w w' : World) : Prop :=
  emits (λ _, True) w w' ∧ phases (new_events w w') `sublist_of` ps.

(** An event other than a call of [restart_evm_service]. *)
Definition not_restart (e : Event) : Prop :=
  match e with Called (RestartEvmService _) => False | _ => True end.

(** The calls a master process may make: archiving the raw reports on
    appliance [coll] and fetching the archive to [dest]. *)
Definition retrieval_only (coll dest : string) (e : Event) : Prop :=
  match e with
  | Called c =>
      c = RunCommand coll TarRawCoverage None ∨ c = GetFile coll raw_archive dest
  | _ => True
  end.

(** [hoare P m Q]: from a world in [P], [m] returns normally, with a
    value and a world in [Q]. *)
Definition hoare {A} (P : World → Prop) (m : M A) (Q : A → World → Prop) : Prop :=
  ∀ w, P w → ∃ a w', m w = (Ok a, w') ∧ Q a w'.

(** No call raises in the client. *)
Definition no_throw (w : World) : Prop := ∀ t c e, oracle w t c ≠ Throws e.

(** An environment that may make commands fail but never raises in the
    client, and lets the restart and the health check of appliance [h]
    through. *)
Definition gentle (h : string) (w : World) : Prop :=
  no_throw w ∧
  (∀ t, oracle w t (RestartEvmService h) = NoFault) ∧
  (∀ t, oracle w t (WaitForWebUi h) = NoFault).

(** An environment that disturbs no call. *)
Definition undisturbed (w : World) : Prop := ∀ t c, oracle w t c = NoFault.

(** [yields P m evs Q]: from a world in [P], [m] returns normally, having
    emitted exactly the events [evs], with a value and a world in [Q]. *)
Definition yields {A} (P : World → Prop) (m : M A) (evs : list Event)
    (Q : A → World → Prop) : Prop :=
  ∀ w, P w → ∃ a w', m w = (Ok a, w') ∧ trace w' = trace w ++ evs ∧ Q a w'.

(** [fails P m evs e Q]: from a world in [P], [m] raises [e], having
    emitted exactly the events [evs], in a world in [Q]. *)
Definition fails {A} (P : World → Prop) (m : M A) (evs : list Event)
    (e : exn) (Q : World → Prop) : Prop :=
  ∀ w, P w → ∃ w', m w = (Raise e, w') ∧ trace w' = trace w ++ evs ∧ Q w'.

(** [m] returns normally from a world in [I], in a world in [I]. *)
Definition keeps {A} (I : World → Prop) (m : M A) : Prop :=
  hoare I m (λ _, I).

(** An invariant of the runs on appliance [h] that use the commands
    [okC]: the environment it describes raises in no call, and it
    survives the bookkeeping of a call, what such a command does on [h],
    the upload of a file other than the marker file, and a restart. *)
Record Stable (h : string) (okC : Command → Prop) (I : World → Prop) : Prop := {
  stable_no_throw c e w : I w → oracle w (clock w) c ≠ Throws e;
  stable_emit e w : I w → I (emit e w);
  stable_tick w : I w → I (tick w);
  stable_files fs w : I w → I (set_local_files fs w);
  stable_exec c t w :
    okC c → I w → oracle w (clock w) (RunCommand h c t) = NoFault →
    I (set_hosts (exec_command h c (hosts w)).2 w);
  stable_put r w :
    r ≠ marker_file → I w →
    I (set_hosts (update_host h (add_file r) (hosts w)) w);
  stable_restart w :
    I w → I (set_hosts (update_host h (set_running true) (hosts w)) w)
}.

(** The environment never lets command [c] of appliance [h] through. *)
Definition command_fails (h : string) (c : Command) (w : World) : Prop :=
  ∀ t tm, oracle w t (RunCommand h c tm) ≠ NoFault.

(** The events of the hook step up to the query for the [patch] package,
    on an appliance without the marker file. *)
Definition hook_probe (self : CoverageManager) : list Event :=
  [ Called (RunCommand (ipapp self) RmCoverageRoot None);
    Called (PutFile (ipapp self) coverage_hook
      (path_join (path_join rails_root "config") coverage_hook_file_name));
    Called (RunCommand (ipapp self) TestMarker None);
    LogInfo (log self) "Patching system with manageiq patch #17302";
    Called (PutFile (ipapp self) local_coverage_hook_patch remote_coverage_hook_patch);
    Called (RunCommand (ipapp self) RpmQueryPatch None) ].

(** Setting up the temporary repository, installing [patch] from it and
    removing it again. *)
Definition yum_steps (self : CoverageManager) (d : RepoData) : list Event :=
  [ WriteLocalFile local_yum_repo (yum_repo_data d);
    Called (PutFile (ipapp self) local_yum_repo remote_yum_repo);
    Called (RunCommand (ipapp self) YumInstallPatch None);
    Called (RunCommand (ipapp self) RmYumRepo None) ].

(** ** Reasoning about computations *)

Lemma bind_run {A B} (m : M A) (k : A → M B) w :
  bind m k w =
  match m w with (Ok a, w') => k a w' | (Raise e, w') => (Raise e, w') end.
Proof. reflexivity. Qed.

Section Preserves.
Context (R : World → World → Prop) `{!PreOrder R}.

Lemma preserves_ret {A} (a : A) : preserves R (ret a).
Proof. intros w. reflexivity. Qed.

Lemma preserves_raise {A} e : preserves R (@raise A e).
Proof. intros w. reflexivity. Qed.

Lemma preserves_get_store : preserves R get_store.
Proof. intros w. reflexivity. Qed.

Lemma preserves_bind {A B} (m : M A) (k : A → M B) :
  preserves R m → (∀ a, preserves R (k a)) → preserves R (bind m k).
Proof.
  intros Hm Hk w. rewrite bind_run. specialize (Hm w).
  destruct (m w) as [[a|e] w1]; simpl in *; [|done].
  etrans; [exact Hm | apply Hk].
Qed.

Lemma preserves_try_except {A} (m : M A) h :
  preserves R m → (∀ e, preserves R (h e)) → preserves R (try_except m h).
Proof.
  intros Hm Hh w. unfold try_except. specialize (Hm w).
  destruct (m w) as [[a|e] w1]; simpl in *; [done|].
  etrans; [exact Hm | apply Hh].
Qed.

End Preserves.

Lemma quiet_report st msg : quiet (report_event st msg).
Proof.
  unfold report_event. destruct (slave_manager st); [done|].
  by destruct (parallel_session st).
Qed.

Lemma report_not_tests st msg : coverage_event (report_event st msg).
Proof.
  unfold report_event, coverage_event. destruct (slave_manager st); [done|].
  by destruct (parallel_session st).
Qed.

Lemma report_not_call st msg c : report_event st msg ≠ Called c.
Proof.
  unfold report_event. destruct (slave_manager st); [done|].
  by destruct (parallel_session st).
Qed.

Lemma host_of_update h f hs h' :
  host_of (update_host h f hs) h' =
  if decide (h = h') then f (host_of hs h) else host_of hs h'.
Proof.
  unfold host_of at 1, update_host. rewrite lookup_insert.
  destruct (decide (h = h')); done.
Qed.

Section Frames.
Context (R : World → World → Prop) (okE : Event → Prop)
  (okH : gmap string HostState → gmap string HostState → Prop)
  `{!Frame R okE okH}.

#[local] Instance frame_preorder : PreOrder R := frame_pre.

Lemma preserves_record e : okE e → preserves R (record e).
Proof. intros He w. simpl. by apply frame_emit. Qed.

Lemma preserves_external c : okE (Called c) → preserves R (external c).
Proof.
  intros He w. simpl. etrans; [apply frame_tick|]. by apply frame_emit.
Qed.

Lemma preserves_run_command h c t :
  okE (Called (RunCommand h c t)) →
  (∀ hs, okH hs (exec_command h c hs).2) →
  preserves R (run_command h c t).
Proof.
  intros He Hx. apply (preserves_bind R); [by apply preserves_external |].
  intros [| out | e]; [| by apply (preserves_ret R) | by apply (preserves_raise R)].
  intros w. specialize (Hx (hosts w)).
  destruct (exec_command h c (hosts w)) as [r hs] eqn:E. simpl in *.
  by apply frame_hosts.
Qed.

Lemma preserves_put_file h l r :
  okE (Called (PutFile h l r)) →
  (∀ hs, okH hs (update_host h (add_file r) hs)) →
  preserves R (put_file h l r).
Proof.
  intros He Hx. apply (preserves_bind R); [by apply preserves_external |].
  intros [| out | e]; [| by apply (preserves_ret R) | by apply (preserves_raise R)].
  intros w. simpl. by apply frame_hosts.
Qed.

Lemma preserves_get_file h r l :
  okE (Called (GetFile h r l)) → preserves R (get_file h r l).
Proof.
  intros He. apply (preserves_bind R); [by apply preserves_external |].
  intros [| out | e]; [| by apply (preserves_raise R) | by apply (preserves_raise R)].
  intros w. case_bool_decide; simpl; [apply frame_files | reflexivity].
Qed.

Lemma preserves_restart_evm_service h :
  okE (Called (RestartEvmService h)) →
  (∀ hs, okH hs (update_host h (set_running true) hs)) →
  preserves R (restart_evm_service h).
Proof.
  intros He Hx. apply (preserves_bind R); [by apply preserves_external |].
  intros [| out | e]; [| by apply (preserves_raise R) | by apply (preserves_raise R)].
  intros w. simpl. by apply frame_hosts.
Qed.

Lemma preserves_wait_for_web_ui h :
  okE (Called (WaitForWebUi h)) → preserves R (wait_for_web_ui h).
Proof.
  intros He. apply (preserves_bind R); [by apply preserves_external |].
  intros [| out | e]; [| by apply (preserves_raise R) | by apply (preserves_raise R)].
  intros w. destruct (evm_running _); simpl; reflexivity.
Qed.

Lemma preserves_version_of h : preserves R (version_of h).
Proof. intros w. reflexivity. Qed.

Lemma preserves_CoverageManager_init a : preserves R (CoverageManager_init a).
Proof.
  apply (preserves_bind R); [apply (preserves_get_store R) |]. intros st.
  apply (preserves_bind R); [apply preserves_version_of |]. intros v.
  destruct (version_lt v "5.8"); [by apply (preserves_raise R) | by apply (preserves_ret R)].
Qed.

Lemma preserves_manager : preserves R manager.
Proof.
  apply (preserves_bind R); [apply (preserves_get_store R) |]. intros st.
  apply preserves_CoverageManager_init.
Qed.

Lemma preserves_collection_appliance self :
  preserves R (collection_appliance self).
Proof.
  intros w. unfold collection_appliance. rewrite bind_run. simpl.
  case_decide; [|reflexivity].
  rewrite bind_run. unfold conf_collection_appliance.
  destruct (conf_runtime w); [reflexivity|].
  destruct (conf_saved w); reflexivity.
Qed.

Lemma preserves_print_message self msg :
  okE (LogInfo (log self) msg) →
  (∀ st m, okE (report_event st m)) →
  preserves R (print_message self msg).
Proof.
  intros Hl Hq. apply (preserves_bind R); [by apply preserves_record |].
  intros _. apply (preserves_bind R); [by apply (preserves_get_store R) |].
  intros st. by apply preserves_record.
Qed.
End Frames.

(** *** Frames that hold through whole phases *)

Ltac pstep_in R okE okH :=
  first
  [ apply (preserves_ret R)
  | apply (preserves_raise R)
  | apply (preserves_get_store R)
  | apply (preserves_version_of R okE okH)
  | apply (preserves_collection_appliance R okE okH)
  | apply (preserves_manager R okE okH)
  | apply (preserves_bind R); [|intros ?]
  | apply (preserves_try_except R); [|intros ?]
  | match goal with
    | |- preserves _ (if ?b then _ else _) => destruct b
    | |- preserves _ (match ?x with _ => _ end) => destruct x
    end ].

Section PhaseFrames.
Context (R : World → World → Prop) (okE : Event → Prop)
  (okH : gmap string HostState → gmap string HostState → Prop)
  `{!Frame R okE okH}.
Hypothesis okE_quiet : ∀ e, quiet e → coverage_event e → okE e.
Hypothesis okH_exec : ∀ h c hs, okH hs (exec_command h c hs).2.
Hypothesis okH_put : ∀ h p hs, okH hs (update_host h (add_file p) hs).
Hypothesis okH_restart : ∀ h hs, okH hs (update_host h (set_running true) hs).

Local Ltac pstep R := pstep_in R okE okH.
Local Ltac quiet_event := apply okE_quiet; [reflexivity | discriminate].

Local Ltac call :=
  first
    [ apply (preserves_run_command R okE okH); [quiet_event | by auto]
    | apply (preserves_put_file R okE okH); [quiet_event | by auto]
    | apply (preserves_get_file R okE okH); quiet_event
    | apply (preserves_restart_evm_service R okE okH); [quiet_event | by auto]
    | apply (preserves_wait_for_web_ui R okE okH); quiet_event
    | apply (preserves_record R okE okH); quiet_event ].

Lemma preserves_quiet_message (self : CoverageManager) msg :
  quiet (LogInfo (log self) msg) → preserves R (print_message self msg).
Proof.
  intros Hq. apply (preserves_print_message R okE okH).
  - apply okE_quiet; [exact Hq | discriminate].
  - intros st m. apply okE_quiet; [apply quiet_report | apply report_not_tests].
Qed.

Lemma preserves__install_simplecov self : preserves R (_install_simplecov self).
Proof.
  unfold _install_simplecov, log_info. cbv zeta.
  repeat first [call | pstep R].
Qed.

Lemma preserves_write_local_file p c : preserves R (write_local_file p c).
Proof.
  unfold write_local_file. pstep R; [call|].
  intros w. apply frame_files.
Qed.

Lemma preserves_cfme_data_local_yum_repo : preserves R cfme_data_local_yum_repo.
Proof.
  intros w. unfold cfme_data_local_yum_repo.
  destruct (basic_info w) as [[d|]|]; reflexivity.
Qed.

Lemma preserves_dict_get d key : preserves R (dict_get d key).
Proof. intros w. unfold dict_get. destruct (d !! key); reflexivity. Qed.

Lemma preserves__install_coverage_hook self :
  preserves R (_install_coverage_hook self).
Proof.
  unfold _install_coverage_hook, log_info.
  repeat first
    [ apply preserves_write_local_file
    | apply preserves_cfme_data_local_yum_repo | apply preserves_dict_get
    | call | pstep R ].
Qed.

Lemma quiet_sending l h : quiet (LogInfo l ("sending reports to " +:+ h)).
Proof. unfold quiet. simpl. repeat case_decide; done. Qed.

Lemma quiet_error_sending l out :
  quiet (LogInfo l ("There was an error sending reports: " +:+ out)).
Proof. unfold quiet. simpl. repeat case_decide; done. Qed.

Lemma preserves_connect_password h : preserves R (connect_password h).
Proof. intros w. reflexivity. Qed.

Lemma preserves__collect_reports self : preserves R (_collect_reports self).
Proof.
  unfold _collect_reports.
  repeat first
    [ apply preserves_connect_password
    | apply preserves_quiet_message; first [apply quiet_sending | apply quiet_error_sending]
    | call | pstep R ].
Qed.

Lemma preserves__retrieve_coverage_reports self :
  preserves R (_retrieve_coverage_reports self).
Proof. unfold _retrieve_coverage_reports. repeat first [call | pstep R]. Qed.

(** Whole phases and hooks also announce themselves. *)
Section Announced.
Hypothesis okE_info : ∀ l msg, okE (LogInfo l msg).

Lemma okE_coverage_event e : coverage_event e → okE e.
Proof.
  intros He. destruct e; try (by apply okE_quiet); by try apply okE_info.
Qed.

Lemma preserves_message self msg : preserves R (print_message self msg).
Proof.
  apply (preserves_print_message R okE okH); [apply okE_info |].
  intros st m. apply okE_quiet; [apply quiet_report | apply report_not_tests].
Qed.

Lemma preserves_install self : preserves R (install self).
Proof.
  unfold install.
  repeat first
    [ apply preserves_message | apply preserves__install_simplecov
    | apply preserves__install_coverage_hook | call | pstep R ].
Qed.

Lemma preserves_collect self : preserves R (collect self).
Proof.
  unfold collect.
  repeat first
    [ apply preserves_message | apply preserves__collect_reports
    | call | pstep R ].
Qed.

Lemma preserves_merge self : preserves R (merge self).
Proof.
  unfold merge, log_error, log_exception.
  repeat first
    [ apply preserves_message | apply preserves__retrieve_coverage_reports
    | apply (preserves_record R okE okH); apply okE_coverage_event; discriminate
    | pstep R ].
Qed.

Lemma preserves_pytest_collection_finish others :
  preserves R others → preserves R (pytest_collection_finish others).
Proof.
  intros Ho w. unfold pytest_collection_finish. specialize (Ho w).
  destruct (others w) as [outcome w1]. simpl in Ho.
  etrans; [exact Ho|].
  assert (preserves R
    (st ← get_store;
     (if decide (parallelizer_role st ≠ Some "master")
      then m ← manager; install m else ret tt);;
     (λ w2, (outcome, w2)))) as Hp; [|apply Hp].
  repeat first
    [ apply preserves_install | pstep R | (intros w'; reflexivity) ].
Qed.

Lemma preserves_pytest_sessionfinish x : preserves R (pytest_sessionfinish x).
Proof.
  unfold pytest_sessionfinish.
  repeat first [ apply preserves_collect | apply preserves_merge | pstep R ].
Qed.

(** The hooks that write the configuration. *)
Section WithConf.
Hypothesis okConf_runtime : ∀ c w, R w (set_conf_runtime c w).
Hypothesis okConf_saved : ∀ c w, R w (set_conf_saved c w).

Lemma preserves_pytest_configure : preserves R pytest_configure.
Proof.
  unfold pytest_configure, clean_coverage_dir.
  repeat first
    [ pstep R | (intros w; apply frame_files) | (intros w; apply okConf_saved) ].
Qed.

Lemma preserves_conf_save : preserves R conf_save.
Proof.
  unfold conf_save. pstep R.
  - apply (preserves_record R okE okH). apply okE_coverage_event. discriminate.
  - intros w. apply okConf_saved.
Qed.

Lemma preserves_pytest_sessionstart : preserves R pytest_sessionstart.
Proof.
  unfold pytest_sessionstart.
  repeat first
    [ apply preserves_conf_save | pstep R | (intros w; apply okConf_runtime) ].
Qed.

Lemma preserves_pytest_sessionfinish_ret x (s : ExitStatus) :
  preserves R (pytest_sessionfinish x;; ret s).
Proof. pstep R; [apply preserves_pytest_sessionfinish | pstep R]. Qed.
End WithConf.
End Announced.
End PhaseFrames.

(** *** The frames used below *)

#[local] Instance same_env_frame : Frame same_env (λ _, True) (λ _ _, True).
Proof.
  split; try done.
  split; [done|]. intros x y z (?&?&?&?&?) (?&?&?&?&?).
  repeat split; congruence.
Qed.

#[local] Instance same_conf_frame : Frame same_conf (λ _, True) (λ _ _, True).
Proof.
  split; try done.
  split; [done|]. intros x y z (?&?) (?&?). split; congruence.
Qed.

#[local] Instance emits_frame P : Frame (emits P) P (λ _ _, True).
Proof.
  split; try done.
  - split.
    + intros w. exists []. by rewrite app_nil_r.
    + intros x y z (e1&H1&F1) (e2&H2&F2). exists (e1 ++ e2).
      rewrite H2, H1, app_assoc. split; [done | by apply Forall_app].
  - intros e w He. exists [e]. split; [done | by constructor].
  - intros w. exists []. by rewrite app_nil_r.
  - intros hs w _. exists []. by rewrite app_nil_r.
  - intros fs w. exists []. by rewrite app_nil_r.
Qed.

#[local] Instance keeps_marker_frame h :
  Frame (keeps_marker h) (λ _, True) (λ hs hs', marker_on hs h → marker_on hs' h).
Proof.
  split; try (by unfold keeps_marker; simpl; auto).
  split; [by intros w ?|]. intros x y z H1 H2 ?. by apply H2, H1.
Qed.

Lemma new_events_app w w' evs :
  trace w' = trace w ++ evs → new_events w w' = evs.
Proof. intros H. unfold new_events. rewrite H. apply drop_app_length. Qed.

Lemma new_events_trans w w1 w2 :
  emits (λ _, True) w w1 → emits (λ _, True) w1 w2 →
  new_events w w2 = new_events w w1 ++ new_events w1 w2.
Proof.
  intros (e1&H1&_) (e2&H2&_).
  rewrite (new_events_app w w1 e1), (new_events_app w1 w2 e2) by done.
  apply new_events_app. by rewrite H2, H1, app_assoc.
Qed.

Lemma emits_weaken (P Q : Event → Prop) w w' :
  (∀ e, P e → Q e) → emits P w w' → emits Q w w'.
Proof.
  intros HPQ (evs&H&F). exists evs. split; [done|].
  eapply Forall_impl; eauto.
Qed.

Lemma emits_new_events P w w' :
  emits P w w' → trace w' = trace w ++ new_events w w' ∧ Forall P (new_events w w').
Proof. intros (evs&H&F). by rewrite (new_events_app w w' evs). Qed.

Lemma phases_app l1 l2 : phases (l1 ++ l2) = phases l1 ++ phases l2.
Proof. unfold phases. apply omap_app. Qed.

Lemma phases_quiet evs : Forall quiet evs → phases evs = [].
Proof.
  induction 1 as [|e evs He _ IH]; [done|].
  unfold phases in *. simpl. unfold quiet in He. by rewrite He.
Qed.

Lemma print_message_run self msg w :
  print_message self msg w =
  (Ok tt, emit (report_event (store w) ("coverage: " +:+ msg))
            (emit (LogInfo (log self) msg) w)).
Proof. reflexivity. Qed.

(** *** Instances of the frames for the phases *)

Lemma quiet_install_body self :
  preserves (emits quiet)
    (_install_simplecov self;;
     _ ← _install_coverage_hook self;
     restart_evm_service (ipapp self);;
     wait_for_web_ui (ipapp self)).
Proof.
  pose proof (emits_frame quiet) as F.
  repeat first
    [ apply (preserves__install_simplecov (emits quiet) quiet (λ _ _, True))
    | apply (preserves__install_coverage_hook (emits quiet) quiet (λ _ _, True))
    | apply (preserves_restart_evm_service (emits quiet) quiet (λ _ _, True))
    | apply (preserves_wait_for_web_ui (emits quiet) quiet (λ _ _, True))
    | apply (preserves_bind (emits quiet)); [|intros ?]
    | done ].
Qed.

Lemma quiet_collect_body self :
  preserves (emits quiet)
    (_collect_reports self;; restart_evm_service (ipapp self)).
Proof.
  pose proof (emits_frame quiet) as F.
  repeat first
    [ apply (preserves__collect_reports (emits quiet) quiet (λ _ _, True))
    | apply (preserves_restart_evm_service (emits quiet) quiet (λ _ _, True))
    | apply (preserves_bind (emits quiet)); [|intros ?]
    | done ].
Qed.

Lemma quiet_merge_body self :
  preserves (emits quiet)
    (try_except
      (_retrieve_coverage_reports self)
      (λ exc,
        log_error self "Error merging coverage reports";;
        log_exception self exc;;
        print_message self "merging reports failed, error has been logged")).
Proof.
  pose proof (emits_frame quiet) as F.
  apply (preserves_try_except (emits quiet)).
  - by apply (preserves__retrieve_coverage_reports (emits quiet) quiet (λ _ _, True)).
  - intros e. unfold log_error, log_exception.
    repeat first
      [ apply (preserves_record (emits quiet) quiet (λ _ _, True)); reflexivity
      | apply (preserves_quiet_message (emits quiet) quiet (λ _ _, True)); done
      | apply (preserves_bind (emits quiet)); [|intros ?] ].
Qed.

(** A phase emits its announcement and then only quiet events. *)
Lemma announced_phase {A} self msg (body : M A) w :
  preserves (emits quiet) body →
  emits (λ _, True) w ((print_message self msg;; body) w).2 ∧
  phases (new_events w ((print_message self msg;; body) w).2) =
  phases [LogInfo (log self) msg].
Proof.
  intros Hb. rewrite bind_run, print_message_run.
  set (w1 := emit _ (emit _ w)).
  destruct (Hb w1) as (evs & Ht & Hq).
  assert (trace (body w1).2 =
    trace w ++ ([LogInfo (log self) msg;
                 report_event (store w) ("coverage: " +:+ msg)] ++ evs)) as Hfull.
  { rewrite Ht. unfold w1. simpl. by rewrite <- !app_assoc. }
  split; [eexists; split; [exact Hfull | by apply Forall_true]|].
  rewrite (new_events_app _ _ _ Hfull), phases_app, (phases_quiet evs Hq), app_nil_r.
  unfold phases. simpl. by rewrite (quiet_report (store w)).
Qed.

Lemma install_phases self w :
  emits (λ _, True) w (install self w).2 ∧
  phases (new_events w (install self w).2) = [Install].
Proof. apply (announced_phase self "installing"), quiet_install_body. Qed.

Lemma collect_phases self w :
  emits (λ _, True) w (collect self w).2 ∧
  phases (new_events w (collect self w).2) = [Collect].
Proof. apply (announced_phase self "collecting reports"), quiet_collect_body. Qed.

Lemma merge_phases self w :
  emits (λ _, True) w (merge self w).2 ∧
  phases (new_events w (merge self w).2) = [Merge].
Proof. apply (announced_phase self "merging reports"), quiet_merge_body. Qed.

Lemma manager_run w :
  manager w =
  if version_lt (appliance_version w (current_appliance (store w))) "5.8"
  then (Raise (ApplianceVersionException
          "Coverage statistics collection is only supported in appliances >= 5.8"), w)
  else (Ok (current_manager (store w)), w).
Proof.
  unfold manager, CoverageManager_init, bind, get_store, version_of. simpl.
  by destruct (version_lt _ _).
Qed.

Lemma collect_same_env self : preserves same_env (collect self).
Proof. by apply (preserves_collect same_env (λ _, True) (λ _ _, True)). Qed.

Lemma install_same_env self : preserves same_env (install self).
Proof. by apply (preserves_install same_env (λ _, True) (λ _ _, True)). Qed.

Lemma merge_same_env self : preserves same_env (merge self).
Proof. by apply (preserves_merge same_env (λ _, True) (λ _ _, True)). Qed.

(** ** The session-finish dispatcher *)

(** C1. At session finish every process whose role is not master runs
    [collect()]; a slave then returns at once (its run is exactly the run
    of [collect()]); [merge()] runs on the master, where no [collect()]
    ran, and on a standalone process, there after [collect()] and only
    when [collect()] returned. *)
Theorem sessionfinish_dispatch (exitstatus : ExitStatus) (w : World) :
  version_lt (appliance_version w (current_appliance (store w))) "5.8" = false →
  let role := parallelizer_role (store w) in
  let self := current_manager (store w) in
  let run := pytest_sessionfinish exitstatus w in
  (role = Some "master" →
     run = merge self w ∧ phases (new_events w run.2) = [Merge]) ∧
  (role = Some "slave" →
     run = collect self w ∧ phases (new_events w run.2) = [Collect]) ∧
  (role ≠ Some "master" → role ≠ Some "slave" →
     run = (collect self;; merge self) w ∧
     phases (new_events w run.2) =
       if is_Ok (collect self w).1 then [Collect; Merge] else [Collect]).
Proof.
  intros Hv role self run.
  assert (manager w = (Ok self, w)) as Hm by (by rewrite manager_run, Hv).
  subst run. unfold pytest_sessionfinish. rewrite bind_run. simpl.
  fold role. split; [|split].
  - intros Hr. rewrite !bind_run. rewrite decide_False by (rewrite Hr; naive_solver).
    simpl. rewrite decide_False by (by rewrite Hr).
    rewrite bind_run, Hm. split; [done | apply merge_phases].
  - intros Hr. rewrite !bind_run. rewrite decide_True by (by rewrite Hr).
    rewrite bind_run, Hm. rewrite decide_True by done.
    pose proof (collect_phases self w) as [_ Hp].
    by destruct (collect self w) as [[[]|e] w1] eqn:E.
  - intros Hnm Hns. rewrite !bind_run. rewrite decide_True by done.
    rewrite bind_run, Hm. rewrite decide_False by done.
    pose proof (collect_phases self w) as [He Hp].
    pose proof (collect_same_env self w) as (Hst & Hver & _).
    destruct (collect self w) as [[[]|e] w1] eqn:E; simpl in *; [|done].
    rewrite bind_run, manager_run, Hst, Hver, Hv. fold self.
    split; [done|].
    pose proof (merge_phases self w1) as [He2 Hp2].
    by rewrite (new_events_trans w w1), phases_app, Hp, Hp2.
Qed.

(** ** Errors in the merge phase *)

(** C2. [merge()] always returns normally. When retrieving the reports
    raises [exc], what remains of the run is the error log entry, the
    logged exception and the status message that the merge failed; when
    it does not raise, [merge()] ends where the retrieval ended. *)
Theorem merge_never_raises (self : CoverageManager) (w : World) :
  (merge self w).1 = Ok tt ∧
  let w0 := (print_message self "merging reports" w).2 in
  match _retrieve_coverage_reports self w0 with
  | (Ok _, w1) => (merge self w).2 = w1
  | (Raise exc, w1) =>
      (merge self w).2 =
      emit (report_event (store w1)
              "coverage: merging reports failed, error has been logged")
        (emit (LogInfo (log self) "merging reports failed, error has been logged")
          (emit (LogException (log self) exc)
            (emit (LogError (log self) "Error merging coverage reports") w1)))
  end.
Proof.
  unfold merge. rewrite bind_run, print_message_run. simpl.
  unfold try_except.
  destruct (_retrieve_coverage_reports self _) as [[[]|exc] w1]; simpl; done.
Qed.

(** ** Appliances below 5.8 *)

(** C10. Constructing the manager of an appliance whose version is below
    5.8 raises [ApplianceVersionException] and changes nothing; a phase
    that needs the constructed manager therefore never starts. *)
Theorem old_appliance_rejected (ipappliance : string) (w : World) :
  version_lt (appliance_version w ipappliance) "5.8" = true →
  let exc := ApplianceVersionException
    "Coverage statistics collection is only supported in appliances >= 5.8" in
  CoverageManager_init ipappliance w = (Raise exc, w) ∧
  (self ← CoverageManager_init ipappliance; install self) w = (Raise exc, w) ∧
  (self ← CoverageManager_init ipappliance; collect self) w = (Raise exc, w) ∧
  (self ← CoverageManager_init ipappliance; merge self) w = (Raise exc, w).
Proof.
  intros Hv exc.
  assert (CoverageManager_init ipappliance w = (Raise exc, w)) as Hi.
  { unfold CoverageManager_init, bind, get_store, version_of. simpl.
    by rewrite Hv. }
  by rewrite !bind_run, Hi.
Qed.

(** ** Collecting *)

Lemma collection_appliance_run self w :
  collection_appliance self w = (coordinator w, w).
Proof.
  unfold collection_appliance, coordinator, conf_collection_appliance, bind,
    get_store, ret.
  case_decide; [|done].
  destruct (conf_runtime w); [done|]. by destruct (conf_saved w).
Qed.

Lemma bind_Ok_inv {A B} (m : M A) (k : A → M B) w b w' :
  bind m k w = (Ok b, w') → ∃ a w1, m w = (Ok a, w1) ∧ k a w1 = (Ok b, w').
Proof.
  rewrite bind_run. destruct (m w) as [[a|e] w1]; [eauto | done].
Qed.

Lemma run_command_run h c t w :
  run_command h c t w =
  let w1 := emit (Called (RunCommand h c t)) (tick w) in
  match oracle w (clock w) (RunCommand h c t) with
  | NoFault =>
      (Ok (exec_command h c (hosts w)).1, set_hosts (exec_command h c (hosts w)).2 w1)
  | CommandFails out => (Ok (mkResult false out), w1)
  | Throws e => (Raise e, w1)
  end.
Proof.
  unfold run_command, bind, external. simpl.
  destruct (oracle w (clock w) _); [|done..].
  change (hosts (emit (Called (RunCommand h c t)) (tick w))) with (hosts w).
  by destruct (exec_command h c (hosts w)).
Qed.

Lemma restart_evm_service_run h w :
  restart_evm_service h w =
  let w1 := emit (Called (RestartEvmService h)) (tick w) in
  match oracle w (clock w) (RestartEvmService h) with
  | NoFault => (Ok tt, set_hosts (update_host h (set_running true) (hosts w)) w1)
  | CommandFails out => (Raise (ApplianceException out), w1)
  | Throws e => (Raise e, w1)
  end.
Proof.
  unfold restart_evm_service, bind, external. simpl.
  by destruct (oracle w (clock w) _).
Qed.

Lemma collect_reports_emits self :
  preserves (emits (λ _, True)) (_collect_reports self).
Proof.
  pose proof (emits_frame (λ _, True)) as F.
  by apply (preserves__collect_reports (emits (λ _, True)) (λ _, True) (λ _ _, True)).
Qed.

(** The first thing [_collect_reports] does is to stop the server. *)
Lemma collect_reports_stops_first self w :
  ∃ evs, new_events w (_collect_reports self w).2 = Called (stop_call self) :: evs.
Proof.
  unfold _collect_reports. rewrite bind_run, run_command_run. cbv zeta.
  set (w1 := emit _ (tick w)).
  assert (∀ (m : M unit) w2, trace w2 = trace w1 →
    preserves (emits (λ _, True)) m →
    ∃ evs, new_events w (m w2).2 = Called (stop_call self) :: evs) as Hrest.
  { intros m w2 Ht Hm. destruct (Hm w2) as (evs & He & _). exists evs.
    apply new_events_app. rewrite He, Ht. unfold w1. simpl.
    by rewrite <- app_assoc. }
  pose proof (emits_frame (λ _, True)) as F.
  destruct (oracle w (clock w) _) as [|out|e].
  - apply Hrest; [done|].
    repeat first
      [ apply (preserves_connect_password (emits (λ _, True)) (λ _, True) (λ _ _, True))
      | apply (preserves_message (emits (λ _, True)) (λ _, True) (λ _ _, True)); done
      | apply (preserves_run_command (emits (λ _, True)) (λ _, True) (λ _ _, True)); done
      | pstep_in (emits (λ _ : Event, True)) (λ _ : Event, True)
          (λ _ _ : gmap string HostState, True) ].
  - apply Hrest; [done|].
    repeat first
      [ apply (preserves_connect_password (emits (λ _, True)) (λ _, True) (λ _ _, True))
      | apply (preserves_message (emits (λ _, True)) (λ _, True) (λ _ _, True)); done
      | apply (preserves_run_command (emits (λ _, True)) (λ _, True) (λ _ _, True)); done
      | pstep_in (emits (λ _ : Event, True)) (λ _ : Event, True)
          (λ _ _ : gmap string HostState, True) ].
  - exists []. apply new_events_app. unfold w1. by simpl.
Qed.

(** ** The server after collecting *)

(** C9. When [collect()] returns, its last act was a call of
    [restart_evm_service] on its appliance that returned normally, after
    the [systemctl stop evmserverd] it began with; the server on that
    appliance is running. *)
Theorem collect_restarts_service (self : CoverageManager) (w w' : World) :
  collect self w = (Ok tt, w') →
  evm_running (host_of (hosts w') (ipapp self)) = true ∧
  ∃ evs, new_events w w' = evs ++ [Called (RestartEvmService (ipapp self))] ∧
         Called (stop_call self) ∈ evs.
Proof.
  unfold collect. intros H.
  apply bind_Ok_inv in H as ([] & w1 & Hp & H).
  apply bind_Ok_inv in H as ([] & w2 & Hc & H).
  rewrite restart_evm_service_run in H. cbv zeta in H.
  destruct (oracle w2 (clock w2) _); [|done..].
  injection H as <-. split.
  - simpl. rewrite host_of_update. by rewrite decide_True.
  - rewrite print_message_run in Hp. injection Hp as <-.
    destruct (collect_reports_stops_first self
      (emit (report_event (store w) ("coverage: " +:+ "collecting reports"))
         (emit (LogInfo (log self) "collecting reports") w))) as (evs & He).
    rewrite Hc in He. simpl in He.
    pose proof (collect_reports_emits self
      (emit (report_event (store w) ("coverage: " +:+ "collecting reports"))
         (emit (LogInfo (log self) "collecting reports") w))) as Hx.
    rewrite Hc in Hx. simpl in Hx. apply emits_new_events in Hx as [Ht _].
    rewrite He in Ht. simpl in Ht.
    exists (LogInfo (log self) "collecting reports" ::
            report_event (store w) ("coverage: " +:+ "collecting reports") ::
            Called (stop_call self) :: evs).
    split.
    + apply new_events_app. simpl. rewrite Ht. simpl.
      by rewrite <- !app_assoc.
    + rewrite !elem_of_cons. auto.
Qed.

Ltac wsimpl :=
  cbn [emit tick set_hosts set_local_files set_conf_runtime set_conf_saved
       store conf_runtime conf_saved basic_info appliance_version
       ssh_password hosts local_files oracle clock trace fst snd Nat.add] in *.

Lemma collect_reports_split self :
  _collect_reports self =
  (_ ← run_command (ipapp self) StopEvm None; send_reports self).
Proof. reflexivity. Qed.

Lemma send_reports_run self w coll :
  coordinator w = Ok coll →
  send_reports self w =
  if decide (current_appliance (store w) ≠ coll) then
    let w2 := announce self ("sending reports to " +:+ hostname coll) w in
    let w3 := emit (Called (scp_call self w coll)) (tick w2) in
    match oracle w (clock w) (scp_call self w coll) with
    | NoFault =>
        (Ok tt,
         set_hosts (exec_command (ipapp self)
           (ScpCoverage (hostname coll) (quote (ssh_password w (ipapp self))))
           (hosts w)).2 w3)
    | CommandFails out =>
        (Ok tt, announce self ("There was an error sending reports: " +:+ out) w3)
    | Throws e => (Raise e, w3)
    end
  else (Ok tt, w).
Proof.
  intros Hc. unfold send_reports.
  rewrite bind_run. unfold get_store at 1.
  rewrite bind_run, collection_appliance_run, Hc.
  case_decide; [|done].
  rewrite bind_run, collection_appliance_run, Hc.
  rewrite bind_run, print_message_run.
  rewrite bind_run, collection_appliance_run.
  assert (∀ e1 e2, coordinator (emit e1 (emit e2 w)) = coordinator w) as -> by done.
  rewrite Hc, bind_run. unfold connect_password at 1.
  rewrite bind_run, run_command_run. cbv zeta. wsimpl.
  unfold scp_call, announce. wsimpl.
  destruct (oracle w (clock w) _); done.
Qed.

Ltac in_list := rewrite !elem_of_cons; repeat (first [left; reflexivity | right]).

Ltac no_scp H :=
  repeat (apply Exists_cons in H as [H|H];
    [ destruct H as (?&?&?&?&H);
      first [discriminate H | by apply report_not_call in H] |]);
  by apply Exists_nil in H.

Ltac some_scp :=
  repeat first [ apply Exists_cons_hd; by eexists _, _, _, _ | apply Exists_cons_tl ].

Ltac events_of_run :=
  erewrite new_events_app by (wsimpl; rewrite <- ?app_assoc; simpl; reflexivity).

(** C3. [_collect_reports] (the body of [collect()]) on the manager of
    the current appliance, when the coordinator resolves to [coll] and the
    stop command does not raise: the stop of the server is its first act;
    a transfer is attempted exactly when the appliance is not the
    coordinator, and then to the coordinator; when that transfer fails
    with output [out], nothing is raised, the run consists of the stop,
    the announcement, the transfer and the error message, the
    coordinator's coverage directory is as before, and the restart that
    follows in [collect()] runs from there. *)
Theorem collect_reports_best_effort
    (self : CoverageManager) (w : World) (coll : string) :
  ipapp self = current_appliance (store w) →
  coordinator w = Ok coll →
  (∀ e, fault_at w 0 (stop_call self) ≠ Throws e) →
  let run := _collect_reports self w in
  let evs := new_events w run.2 in
  (∃ rest, evs = Called (stop_call self) :: rest) ∧
  (Exists is_scp evs ↔ ipapp self ≠ coll) ∧
  (ipapp self ≠ coll → Called (scp_call self w coll) ∈ evs) ∧
  (∀ out, ipapp self ≠ coll →
     fault_at w 1 (scp_call self w coll) = CommandFails out →
     run.1 = Ok tt ∧
     evs =
       [ Called (stop_call self);
         LogInfo (log self) ("sending reports to " +:+ hostname coll);
         report_event (store w)
           ("coverage: " +:+ "sending reports to " +:+ hostname coll);
         Called (scp_call self w coll);
         LogInfo (log self) ("There was an error sending reports: " +:+ out);
         report_event (store w)
           ("coverage: " +:+ "There was an error sending reports: " +:+ out) ] ∧
     coverage_dir (host_of (hosts run.2) coll) =
       coverage_dir (host_of (hosts w) coll) ∧
     (_collect_reports self;; restart_evm_service (ipapp self)) w =
       restart_evm_service (ipapp self) run.2).
Proof.
  intros Hip Hc Hstop run evs.
  assert (∀ k : M unit, run.1 = Ok tt →
    (_collect_reports self;; k) w = k run.2) as Hk.
  { intros k Hr. rewrite bind_run. subst run.
    by destruct (_collect_reports self w) as [[[]|?] ?]. }
  revert Hk. subst evs run.
  unfold fault_at, stop_call in *. simpl in Hstop.
  rewrite collect_reports_split, bind_run, run_command_run. cbv zeta.
  destruct (oracle w (clock w) (RunCommand (ipapp self) StopEvm None))
    as [|out0|e0] eqn:Eo; [| |by destruct (Hstop e0)].
  all: rewrite (send_reports_run self _ coll) by done; wsimpl; rewrite <- Hip.
  all: case_decide as Hne; cbv zeta; unfold scp_call, announce; wsimpl.
  all: try match goal with
       | |- context [oracle ?v ?n (RunCommand ?h (ScpCoverage ?a ?p) ?t)] =>
           destruct (oracle v n (RunCommand h (ScpCoverage a p) t))
             as [|out1|e1] eqn:Es
       end.
  all: wsimpl; events_of_run; intros Hk.
  all: split; [eexists; reflexivity|].
  all: split; [|split].
  all: lazymatch goal with
       | |- Exists _ _ ↔ _ =>
           split;
           [ intros HE; first [assumption | exfalso; no_scp HE]
           | intros Hn; first [by destruct Hne | some_scp] ]
       | |- _ → _ ∈ _ => intros Hn; first [by destruct Hne | in_list]
       | |- ∀ out, _ =>
           intros out Hn Hf;
           first
             [ by destruct Hne
             | discriminate Hf
             | injection Hf as ->; split_and!; [done | done | | by apply Hk] ]
       end.
  all: unfold exec_command; cbn [snd]; rewrite ?host_of_update.
  all: by rewrite ?decide_False by done.
Qed.

(** ** Failures during install *)

Lemma bind_raises {A B} (R : World → World → Prop) (m : M A) (k : A → M B) w :
  preserves R m →
  (∀ a w1, R w w1 → raises (k a w1).1) →
  raises (bind m k w).1.
Proof.
  intros Hm Hk. rewrite bind_run. specialize (Hm w).
  destruct (m w) as [[a|e] w1]; simpl in *; [by apply Hk | by exists e].
Qed.

(** A restart followed by the health check raises as soon as the
    environment never lets one of the two succeed. *)
Lemma restart_wait_raises h w :
  (∀ t, oracle w t (RestartEvmService h) ≠ NoFault) ∨
  (∀ t, oracle w t (WaitForWebUi h) ≠ NoFault) →
  raises ((restart_evm_service h;; wait_for_web_ui h) w).1.
Proof.
  intros H. rewrite bind_run, restart_evm_service_run. cbv zeta.
  destruct (oracle w (clock w) (RestartEvmService h)) as [|out|e] eqn:Er;
    [|by eexists..].
  destruct H as [H|H]; [by destruct (H (clock w))|].
  unfold wait_for_web_ui, bind, external. simpl.
  specialize (H (S (clock w))).
  destruct (oracle w (S (clock w)) (WaitForWebUi h)); [done | by eexists..].
Qed.

Lemma install_raises self w :
  (∀ t, oracle w t (RestartEvmService (ipapp self)) ≠ NoFault) ∨
  (∀ t, oracle w t (WaitForWebUi (ipapp self)) ≠ NoFault) →
  raises (install self w).1.
Proof.
  intros H. unfold install.
  assert (Frame same_env (λ _, True) (λ _ _, True)) as F by apply _.
  apply (bind_raises same_env);
    [by apply (preserves_message same_env (λ _, True) (λ _ _, True))|].
  intros _ w1 E1.
  apply (bind_raises same_env);
    [by apply (preserves__install_simplecov same_env (λ _, True) (λ _ _, True))|].
  intros _ w2 E2.
  apply (bind_raises same_env);
    [by apply (preserves__install_coverage_hook same_env (λ _, True) (λ _ _, True))|].
  intros _ w3 E3.
  apply restart_wait_raises.
  assert (oracle (w3) = oracle w) as ->; [|done].
  destruct E1 as (_&_&_&_&E1), E2 as (_&_&_&_&E2), E3 as (_&_&_&_&E3).
  congruence.
Qed.

Lemma pytest_collection_finish_run w :
  parallelizer_role (store w) ≠ Some "master" →
  version_lt (appliance_version w (current_appliance (store w))) "5.8" = false →
  pytest_collection_finish (ret tt) w = install (current_manager (store w)) w.
Proof.
  intros Hr Hv. unfold pytest_collection_finish. simpl.
  rewrite bind_run. unfold get_store at 1. rewrite decide_True by done.
  rewrite !bind_run, manager_run, Hv.
  by destruct (install _ w) as [[[]|e] w1].
Qed.

Lemma install_emits self : preserves (emits coverage_event) (install self).
Proof.
  pose proof (emits_frame coverage_event) as F.
  by apply (preserves_install (emits coverage_event) coverage_event (λ _ _, True)).
Qed.

Lemma sessionfinish_emits x :
  preserves (emits coverage_event) (pytest_sessionfinish x).
Proof.
  pose proof (emits_frame coverage_event) as F.
  by apply (preserves_pytest_sessionfinish (emits coverage_event) coverage_event
    (λ _ _, True)).
Qed.

Lemma configure_emits : preserves (emits coverage_event) pytest_configure.
Proof.
  pose proof (emits_frame coverage_event) as F.
  by apply (preserves_pytest_configure (emits coverage_event) coverage_event
    (λ _ _, True)).
Qed.

Lemma configure_same_env : preserves same_env pytest_configure.
Proof.
  by apply (preserves_pytest_configure same_env (λ _, True) (λ _ _, True)).
Qed.

Lemma emits_no_tests w w' :
  emits coverage_event w w' → TestsRun ∉ new_events w w'.
Proof.
  intros (evs & Ht & Hf). rewrite (new_events_app _ _ _ Ht).
  intros Hin. rewrite Forall_forall in Hf. by apply (Hf TestsRun).
Qed.

Lemma pytest_configure_returns w : (pytest_configure w).1 = Ok tt.
Proof.
  unfold pytest_configure, bind, get_store, clean_coverage_dir, act, ret.
  simpl. by case_decide.
Qed.

(** C4. On a process that installs (any role but master), when the
    environment never lets the restart of the server, or never lets the
    health check, succeed, [install()] raises; the exception leaves the
    collection-finish hook and the body of the session as it left
    [install()], so the test loop is not reached: a session run in such a
    world does not end with [EXIT_OK] and runs no test. *)
Theorem install_failure_aborts (w : World) :
  parallelizer_role (store w) ≠ Some "master" →
  version_lt (appliance_version w (current_appliance (store w))) "5.8" = false →
  let self := current_manager (store w) in
  (∀ t, oracle w t (RestartEvmService (ipapp self)) ≠ NoFault) ∨
  (∀ t, oracle w t (WaitForWebUi (ipapp self)) ≠ NoFault) →
  (∃ e w',
     install self w = (Raise e, w') ∧
     pytest_collection_finish (ret tt) w = (Raise e, w') ∧
     pytest_main w = (Raise e, w')) ∧
  (wrap_session w).1 ≠ Ok EXIT_OK ∧
  TestsRun ∉ new_events w (wrap_session w).2.
Proof.
  intros Hr Hv self Hf.
  assert (∀ w0, same_env w w0 → ∃ e w',
     install self w0 = (Raise e, w') ∧
     pytest_collection_finish (ret tt) w0 = (Raise e, w') ∧
     pytest_main w0 = (Raise e, w')) as Hmain.
  { intros w0 (Hst & Hver & _ & _ & Ho).
    destruct (install_raises self w0) as [e He]; [by rewrite Ho|].
    destruct (install self w0) as [r w'] eqn:Ei. simpl in He. subst r.
    exists e, w'. split; [done|].
    assert (pytest_collection_finish (ret tt) w0 = (Raise e, w')) as Hcf.
    { rewrite pytest_collection_finish_run by (by rewrite Hst, ?Hver).
      by rewrite Hst. }
    split; [done|]. unfold pytest_main. by rewrite bind_run, Hcf. }
  split; [by apply Hmain|].
  unfold wrap_session. rewrite bind_run.
  pose proof (pytest_configure_returns w) as Hc.
  pose proof (configure_same_env w) as Henv.
  pose proof (configure_emits w) as Hev.
  destruct (pytest_configure w) as [r0 w0]. simpl in Hc. subst r0.
  simpl in Henv, Hev.
  destruct (Hmain w0 Henv) as (e & w2 & Hi & _ & Hm).
  assert (pytest_sessionstart w0 = (Ok tt, w0)) as ->.
  { unfold pytest_sessionstart. rewrite bind_run. unfold get_store at 1.
    destruct Henv as (-> & _). by rewrite decide_False. }
  rewrite Hm. simpl. rewrite bind_run.
  pose proof (install_emits self w0) as Hev2. rewrite Hi in Hev2. simpl in Hev2.
  pose proof (sessionfinish_emits EXIT_INTERNALERROR w2) as Hev3.
  destruct (pytest_sessionfinish EXIT_INTERNALERROR w2) as [[[]|e3] w3];
    simpl in *.
  all: split; [done|].
  all: apply emits_no_tests.
  all: pose proof (emits_frame coverage_event) as F.
  all: by do 2 (etrans; [eassumption|]).
Qed.

(** ** The integration patch *)

Lemma marker_on_update h f hs h' :
  (∀ s, marker_file ∈ files s → marker_file ∈ files (f s)) →
  marker_on hs h' → marker_on (update_host h f hs) h'.
Proof.
  unfold marker_on. intros Hf Hm. rewrite host_of_update.
  case_decide; [subst; by apply Hf | done].
Qed.

Lemma exec_keeps_marker h c hs h' :
  marker_on hs h' → marker_on (exec_command h c hs).2 h'.
Proof.
  intros Hm. destruct c; simpl; try done.
  - by apply marker_on_update.
  - apply marker_on_update; [|done]. intros s Hs. simpl.
    apply elem_of_difference. split; [done|].
    rewrite elem_of_singleton. discriminate.
  - case_match; simpl; [|done]. apply marker_on_update; [|done].
    intros s Hs. simpl. set_solver.
  - apply marker_on_update; [|done]. intros s Hs. by destruct (evm_running s).
  - by apply marker_on_update.
  - apply marker_on_update; [|done]. intros s Hs. simpl. set_solver.
Qed.

Lemma install_keeps_marker self h : preserves (keeps_marker h) (install self).
Proof.
  apply (preserves_install (keeps_marker h) (λ _, True)
    (λ hs hs', marker_on hs h → marker_on hs' h)); try done.
  - intros h' c hs. apply exec_keeps_marker.
  - intros h' p hs. apply marker_on_update. intros s Hs. simpl. set_solver.
  - intros h' hs. by apply marker_on_update.
Qed.

#[local] Instance patch_free_frame h :
  Frame (patch_free h) no_patch (patch_free_host h).
Proof.
  pose proof same_env_frame as F1. pose proof (keeps_marker_frame h) as F2.
  pose proof (emits_frame no_patch) as F3.
  split.
  - split.
    + intros w. by split_and!.
    + intros x y z (?&?&?) (?&?&?). split_and!; by etrans.
  - by intros hs ?.
  - intros e w He. split_and!;
      [by apply (frame_emit (R:=same_env)) | by intros ? | by apply frame_emit].
  - intros w. split_and!;
      [apply (frame_tick (R:=same_env)) | by intros ? | apply (frame_tick (R:=emits no_patch))].
  - intros hs w Hh. split_and!;
      [by apply (frame_hosts (R:=same_env)) | done
      | by apply (frame_hosts (R:=emits no_patch))].
  - intros fs w. split_and!;
      [apply (frame_files (R:=same_env)) | by intros ?
      | apply (frame_files (R:=emits no_patch))].
Qed.

Lemma no_patch_report st m : no_patch (report_event st m).
Proof.
  unfold report_event. destruct (slave_manager st); [done|].
  by destruct (parallel_session st).
Qed.

Ltac patch_free_side h :=
  first
    [ reflexivity
    | apply no_patch_report
    | (intros ?; unfold patch_free_host; apply exec_keeps_marker)
    | (intros ?; unfold patch_free_host; apply marker_on_update;
       intros ? ?; simpl; set_solver)
    | (intros ?; unfold patch_free_host; by apply marker_on_update) ].

Ltac patch_free_walk h :=
  repeat first
    [ apply (preserves_run_command (patch_free h) no_patch (patch_free_host h));
        [patch_free_side h | patch_free_side h]
    | apply (preserves_put_file (patch_free h) no_patch (patch_free_host h));
        [patch_free_side h | patch_free_side h]
    | apply (preserves_restart_evm_service (patch_free h) no_patch (patch_free_host h));
        [patch_free_side h | patch_free_side h]
    | apply (preserves_wait_for_web_ui (patch_free h) no_patch (patch_free_host h));
        patch_free_side h
    | apply (preserves_record (patch_free h) no_patch (patch_free_host h));
        patch_free_side h
    | apply (preserves_print_message (patch_free h) no_patch (patch_free_host h));
        [patch_free_side h | intros ? ?; apply no_patch_report]
    | pstep_in (patch_free h) no_patch (patch_free_host h) ].

Lemma simplecov_patch_free self h :
  preserves (patch_free h) (_install_simplecov self).
Proof.
  unfold _install_simplecov, log_info. cbv zeta. patch_free_walk h.
Qed.

Lemma patched_step self w w' :
  patched self w → patch_free (ipapp self) w w' → patched self w'.
Proof.
  intros [Hm Ho] ((_&_&_&_&Heq) & Hk & _). split; [by apply Hk|].
  by rewrite Heq.
Qed.

Lemma run_bind {A B} (R : World → World → Prop) `{!PreOrder R}
    (m : M A) (k : A → M B) w :
  R w (m w).2 →
  (∀ a w1, m w = (Ok a, w1) → R w w1 → R w1 (k a w1).2) →
  R w (bind m k w).2.
Proof.
  intros Hm Hk. rewrite bind_run.
  destruct (m w) as [[a|e] w1] eqn:E; simpl in *; [|done].
  etrans; [exact Hm | by apply Hk].
Qed.

(** On a patched appliance the hook stops after the marker test. *)
Lemma hook_patch_free self w :
  patched self w →
  let r := _install_coverage_hook self w in
  (r.1 = Ok true ∨ raises r.1) ∧ patch_free (ipapp self) w r.2.
Proof.
  intros Hp. unfold _install_coverage_hook.
  pose proof (patch_free_frame (ipapp self)) as F.
  assert (preserves (patch_free (ipapp self))
    (run_command (ipapp self) RmCoverageRoot None)) as H1
    by patch_free_walk (ipapp self).
  assert (preserves (patch_free (ipapp self))
    (put_file (ipapp self) coverage_hook
      (path_join (path_join rails_root "config") coverage_hook_file_name))) as H2
    by patch_free_walk (ipapp self).
  cbv zeta. rewrite bind_run. specialize (H1 w).
  destruct (run_command _ RmCoverageRoot _ w) as [[r1|e1] w1];
    simpl in H1; [|split; [right; by eexists | done]].
  rewrite bind_run. specialize (H2 w1).
  destruct (put_file _ _ _ w1) as [[[]|e2] w2];
    simpl in H2; [|split; [right; by eexists | by etrans]].
  assert (patched self w2) as [Hm Ho]
    by (eapply patched_step; [eapply patched_step|]; eauto).
  rewrite bind_run, run_command_run, Ho. cbv zeta. simpl.
  rewrite bool_decide_true by exact Hm. simpl.
  split; [by left|].
  etrans; [exact H1|]. etrans; [exact H2|].
  trans (tick w2); [apply (frame_tick (R:=patch_free (ipapp self)))|].
  trans (emit (Called (RunCommand (ipapp self) TestMarker None)) (tick w2));
    [apply (frame_emit (R:=patch_free (ipapp self)) (okE:=no_patch)); reflexivity|].
  apply (frame_hosts (R:=patch_free (ipapp self))
           (okH:=patch_free_host (ipapp self))).
  by intros ?.
Qed.

(** A hook that reports success leaves the marker file behind. *)
Lemma hook_establishes_marker self w w1 :
  _install_coverage_hook self w = (Ok true, w1) →
  marker_on (hosts w1) (ipapp self).
Proof.
  unfold _install_coverage_hook. intros H.
  apply bind_Ok_inv in H as (r1 & wa & _ & H).
  apply bind_Ok_inv in H as ([] & wb & _ & H).
  apply bind_Ok_inv in H as (r & wc & Ht & H).
  destruct (success r) eqn:Es.
  - injection H as <-. rewrite run_command_run in Ht. cbv zeta in Ht.
    destruct (oracle wb (clock wb) _); simplify_eq; simpl in *.
    by apply bool_decide_eq_true_1 in Es.
  - apply bind_Ok_inv in H as ([] & wd & _ & H).
    apply bind_Ok_inv in H as ([] & we & _ & H).
    apply bind_Ok_inv in H as (r2 & wf & _ & H).
    apply bind_Ok_inv in H as ([] & wg & _ & H).
    apply bind_Ok_inv in H as (r3 & wh & Hp & H).
    injection H as Hs <-. rewrite run_command_run in Hp. cbv zeta in Hp.
    destruct (oracle wg (clock wg) _); simplify_eq; simpl in *.
    destruct (_ && _); simpl in *; [|done].
    unfold marker_on. rewrite host_of_update, decide_True by done.
    simpl. set_solver.
Qed.

Lemma install_patch_free self w :
  patched self w → patch_free (ipapp self) w (install self w).2.
Proof.
  intros Hp. unfold install.
  pose proof (patch_free_frame (ipapp self)) as F.
  assert (PreOrder (patch_free (ipapp self))) as PO by apply frame_pre.
  apply (run_bind (patch_free (ipapp self))).
  { assert (preserves (patch_free (ipapp self))
      (print_message self "installing")) as H by patch_free_walk (ipapp self).
    apply H. }
  intros [] w1 _ R1. apply (run_bind (patch_free (ipapp self)));
    [apply simplecov_patch_free|].
  intros [] w2 _ R2.
  assert (patched self w2) as Hp2
    by (eapply patched_step; [eapply patched_step|]; eauto).
  apply (run_bind (patch_free (ipapp self)));
    [by apply hook_patch_free|].
  intros b w3 _ R3.
  assert (preserves (patch_free (ipapp self))
    (restart_evm_service (ipapp self);; wait_for_web_ui (ipapp self))) as H
    by patch_free_walk (ipapp self).
  apply H.
Qed.

(** C6. On an appliance that carries the marker file, in an environment
    that lets the marker test through, the hook step returns [True] right
    after the test (unless an earlier call raised): neither it nor a whole
    [install()] uploads or applies the patch, and the marker file is still
    there afterwards. *)
Theorem patch_step_idempotent (self : CoverageManager) (w : World) :
  marker_on (hosts w) (ipapp self) →
  (∀ t, oracle w t (RunCommand (ipapp self) TestMarker None) = NoFault) →
  let hook := _install_coverage_hook self w in
  let inst := install self w in
  (hook.1 = Ok true ∨ raises hook.1) ∧
  Forall no_patch (new_events w hook.2) ∧
  marker_on (hosts hook.2) (ipapp self) ∧
  Forall no_patch (new_events w inst.2) ∧
  marker_on (hosts inst.2) (ipapp self).
Proof.
  intros Hm Ho hook inst.
  assert (patched self w) as Hp by done.
  destruct (hook_patch_free self w Hp) as (Hr & _ & Hk & He).
  destruct (install_patch_free self w Hp) as (_ & Hk' & He').
  split_and!; [done | by apply emits_new_events in He as [_ ?] | by apply Hk
    | by apply emits_new_events in He' as [_ ?] | by apply Hk'].
Qed.

(** ** The order of the phases *)

Lemma announces_trans p1 p2 w w1 w2 :
  announces p1 w w1 → announces p2 w1 w2 → announces (p1 ++ p2) w w2.
Proof.
  intros [E1 S1] [E2 S2]. split.
  - pose proof (emits_frame (λ _, True)). by etrans.
  - rewrite (new_events_trans w w1 w2), phases_app by done.
    by apply sublist_app.
Qed.

Lemma announces_quiet w w' : emits quiet w w' → announces [] w w'.
Proof.
  intros H. split; [by eapply emits_weaken|].
  apply emits_new_events in H as [_ H]. by rewrite phases_quiet.
Qed.

Lemma announces_refl w : announces [] w w.
Proof. apply announces_quiet. exists []. by rewrite app_nil_r. Qed.

Lemma announces_weaken p q w w' :
  p `sublist_of` q → announces p w w' → announces q w w'.
Proof. intros Hs [E S]. split; [done | by etrans]. Qed.

Lemma announces_exact p w w' :
  emits (λ _, True) w w' ∧ phases (new_events w w') = p → announces p w w'.
Proof. intros [E H]. split; [done|]. by rewrite H. Qed.

Lemma configure_quiet : preserves (emits quiet) pytest_configure.
Proof.
  pose proof (emits_frame quiet) as F.
  apply (preserves_pytest_configure (emits quiet) quiet (λ _ _, True)).
Qed.

Lemma sessionstart_quiet : preserves (emits quiet) pytest_sessionstart.
Proof.
  pose proof (emits_frame quiet) as F.
  unfold pytest_sessionstart, conf_save.
  repeat first
    [ apply (preserves_record (emits quiet) quiet (λ _ _, True)); reflexivity
    | pstep_in (emits quiet) quiet (λ _ _ : gmap string HostState, True)
    | (intros w; exists []; by rewrite app_nil_r) ].
Qed.

Lemma collection_finish_announces w :
  announces [Install] w (pytest_collection_finish (ret tt) w).2.
Proof.
  unfold pytest_collection_finish. simpl. rewrite bind_run.
  unfold get_store at 1. case_decide.
  - rewrite !bind_run, manager_run.
    destruct (version_lt _ _); simpl.
    + apply (announces_weaken []); [apply sublist_nil_l | apply announces_refl].
    + pose proof (install_phases (current_manager (store w)) w) as Hi.
      destruct (install _ w) as [[[]|e] w1]; by apply announces_exact.
  - apply (announces_weaken []); [apply sublist_nil_l | apply announces_refl].
Qed.

Lemma sessionfinish_announces x w :
  announces [Collect; Merge] w (pytest_sessionfinish x w).2.
Proof.
  unfold pytest_sessionfinish. rewrite bind_run. unfold get_store at 1.
  assert (∀ w, announces [Merge] w
    ((m ← manager; merge m) w).2) as Hmerge.
  { intros w0. rewrite bind_run, manager_run. destruct (version_lt _ _); simpl.
    - apply (announces_weaken []); [apply sublist_nil_l | apply announces_refl].
    - apply announces_exact, merge_phases. }
  assert (∀ w, announces [Collect] w
    ((m ← manager; collect m) w).2) as Hcollect.
  { intros w0. rewrite bind_run, manager_run. destruct (version_lt _ _); simpl.
    - apply (announces_weaken []); [apply sublist_nil_l | apply announces_refl].
    - apply announces_exact, collect_phases. }
  rewrite bind_run. case_decide as Hm.
  - specialize (Hcollect w).
    destruct ((m ← manager; collect m) w) as [[[]|e] w1]; simpl in *.
    + case_decide.
      * apply (announces_weaken [Collect]); [by repeat constructor | done].
      * eapply (announces_trans [Collect] [Merge]); [exact Hcollect | apply Hmerge].
    + apply (announces_weaken [Collect]); [by repeat constructor | done].
  - simpl. rewrite decide_False by naive_solver.
    apply (announces_weaken [Merge]); [|done].
    by apply sublist_cons, sublist_skip.
Qed.

Lemma run_command_then {A} h c t (k : SSHResult → M A) w :
  (∀ r, preserves (emits (λ _, True)) (k r)) →
  ∃ evs, trace ((r ← run_command h c t; k r) w).2 =
         trace w ++ Called (RunCommand h c t) :: evs.
Proof.
  intros Hk. rewrite bind_run, run_command_run. cbv zeta.
  destruct (oracle w (clock w) _) as [|out|e].
  - destruct (Hk (exec_command h c (hosts w)).1
      (set_hosts (exec_command h c (hosts w)).2
        (emit (Called (RunCommand h c t)) (tick w)))) as (evs & He & _).
    exists evs. rewrite He. simpl. by rewrite <- app_assoc.
  - destruct (Hk (mkResult false out)
      (emit (Called (RunCommand h c t)) (tick w))) as (evs & He & _).
    exists evs. rewrite He. simpl. by rewrite <- app_assoc.
  - by exists [].
Qed.

Lemma merge_returns self w : (merge self w).1 = Ok tt.
Proof.
  unfold merge. rewrite bind_run, print_message_run. unfold try_except.
  by destruct (_retrieve_coverage_reports self _) as [[[]|exc] w1].
Qed.

(** [merge()] archives on the coordinator whenever one is known. *)
Lemma merge_archives self w coll :
  coordinator w = Ok coll →
  Called (RunCommand coll TarRawCoverage None) ∈ new_events w (merge self w).2.
Proof.
  intros Hc. unfold merge. rewrite bind_run, print_message_run.
  set (w1 := emit _ (emit _ w)).
  unfold try_except, _retrieve_coverage_reports.
  rewrite bind_run, collection_appliance_run.
  assert (coordinator w1 = Ok coll) as -> by done.
  pose proof (emits_frame (λ _, True)) as F.
  destruct (run_command_then coll TarRawCoverage None
    (λ _, get_file coll raw_archive coverage_results_archive) w1) as (evs & He).
  { intros r. by apply (preserves_get_file (emits (λ _, True)) (λ _, True) (λ _ _, True)). }
  destruct ((_ ← run_command coll TarRawCoverage None;
             get_file coll raw_archive coverage_results_archive) w1)
    as [[[]|exc] w2]; simpl in He.
  - simpl. erewrite new_events_app
      by (rewrite He; rewrite <- !app_assoc; reflexivity).
    simpl. rewrite !elem_of_cons. auto.
  - assert (preserves (emits (λ _, True))
      (log_error self "Error merging coverage reports";;
       log_exception self exc;;
       print_message self "merging reports failed, error has been logged")) as Hh.
    { unfold log_error, log_exception.
      repeat first
        [ apply (preserves_record (emits (λ _, True)) (λ _, True) (λ _ _, True)); done
        | apply (preserves_print_message (emits (λ _, True)) (λ _, True) (λ _ _, True)); done
        | apply (preserves_bind (emits (λ _, True))); [|intros ?] ]. }
    destruct (Hh w2) as (evs2 & He2 & _).
    erewrite new_events_app
      by (rewrite He2, He; rewrite <- !app_assoc; reflexivity).
    simpl. rewrite !elem_of_cons. auto.
Qed.

(** C7, as the code has it. The coordinator keeps no phase state. The
    phases a session announces are, in this order, some of install,
    collect and merge, because the hooks call them in that order; and
    [merge()] is accepted in any world, whatever came before: it returns
    normally, announces itself and archives the raw reports on the
    coordinator. *)
Theorem phases_follow_hooks (w : World) :
  phases (new_events w (wrap_session w).2) `sublist_of` [Install; Collect; Merge] ∧
  ∀ self,
    (merge self w).1 = Ok tt ∧
    phases (new_events w (merge self w).2) = [Merge] ∧
    ∀ coll, coordinator w = Ok coll →
      Called (RunCommand coll TarRawCoverage None) ∈ new_events w (merge self w).2.
Proof.
  split;
    [|intros self; split_and!;
       [apply merge_returns | apply merge_phases | apply merge_archives]].
  assert (announces [Install; Collect; Merge] w (wrap_session w).2) as [_ H];
    [|done].
  unfold wrap_session. rewrite bind_run.
  pose proof (announces_quiet _ _ (configure_quiet w)) as H0.
  pose proof (pytest_configure_returns w) as Hc.
  destruct (pytest_configure w) as [r0 w0]. simpl in *. subst r0.
  pose proof (announces_quiet _ _ (sessionstart_quiet w0)) as H1.
  destruct (pytest_sessionstart w0) as [[[]|e1] w1]; simpl in *.
  - assert (announces [Install] w1 (pytest_main w1).2) as H2.
    { unfold pytest_main. rewrite bind_run.
      pose proof (collection_finish_announces w1) as Hcf.
      destruct (pytest_collection_finish (ret tt) w1) as [[[]|e2] w2];
        simpl in *; [|done].
      apply (announces_trans [Install] [] _ _ _ Hcf), announces_quiet.
      exists [TestsRun]. split; [done | by repeat constructor]. }
    destruct (pytest_main w1) as [r2 w2]. simpl in *.
    rewrite bind_run.
    pose proof (sessionfinish_announces
      (if is_Ok r2 then EXIT_OK else EXIT_INTERNALERROR) w2) as H3.
    destruct (pytest_sessionfinish _ w2) as [[[]|e3] w3]; simpl in *.
    all: apply (announces_trans [] [Install; Collect; Merge] _ _ _ H0).
    all: apply (announces_trans [] [Install; Collect; Merge] _ _ _ H1).
    all: apply (announces_trans [Install] [Collect; Merge] _ _ _ H2 H3).
  - apply (announces_weaken []); [apply sublist_nil_l|].
    by apply (announces_trans [] [] _ _ _ H0).
Qed.

(** ** The collection appliance of a distributed run *)

Lemma install_same_conf self : preserves same_conf (install self).
Proof. by apply (preserves_install same_conf (λ _, True) (λ _ _, True)). Qed.

Lemma collect_same_conf self : preserves same_conf (collect self).
Proof. by apply (preserves_collect same_conf (λ _, True) (λ _ _, True)). Qed.

Lemma merge_same_conf self : preserves same_conf (merge self).
Proof. by apply (preserves_merge same_conf (λ _, True) (λ _ _, True)). Qed.

Lemma pytest_configure_run w : pytest_configure w = (Ok tt, configured w).
Proof.
  unfold pytest_configure, configured, bind, get_store, clean_coverage_dir,
    act, ret.
  by case_decide.
Qed.

Lemma configure_same_conf : preserves same_conf pytest_configure.
Proof.
  by apply (preserves_pytest_configure same_conf (λ _, True) (λ _ _, True)).
Qed.

Lemma main_same_conf : preserves same_conf pytest_main.
Proof.
  unfold pytest_main. apply (preserves_bind same_conf).
  - by apply (preserves_pytest_collection_finish same_conf (λ _, True) (λ _ _, True)).
  - intros _. by apply (preserves_record same_conf (λ _, True) (λ _ _, True)).
Qed.

Lemma main_same_env : preserves same_env pytest_main.
Proof.
  unfold pytest_main. apply (preserves_bind same_env).
  - by apply (preserves_pytest_collection_finish same_env (λ _, True) (λ _ _, True)).
  - intros _. by apply (preserves_record same_env (λ _, True) (λ _ _, True)).
Qed.

(** The collection appliance depends on the store and the configuration
    only. *)
Lemma coordinator_stable w w' :
  same_env w w' → same_conf w w' → coordinator w' = coordinator w.
Proof.
  intros (Hst & _) (Hrt & Hsv). unfold coordinator. by rewrite Hst, Hrt, Hsv.
Qed.

Lemma sessionstart_elsewhere w :
  parallelizer_role (store w) ≠ Some "master" →
  pytest_sessionstart w = (Ok tt, w).
Proof.
  intros Hw. unfold pytest_sessionstart. rewrite bind_run.
  unfold get_store at 1. by rewrite decide_False.
Qed.

(** The world in which the session-finish hook of a slave runs has the
    collection appliance the slave started with. *)
Lemma coordinator_at_sessionfinish w :
  parallelizer_role (store w) ≠ Some "master" →
  coordinator (at_sessionfinish w) = coordinator w ∧
  store (at_sessionfinish w) = store w.
Proof.
  intros Hr. unfold at_sessionfinish.
  pose proof (configure_same_env w) as He0.
  pose proof (configure_same_conf w) as Hc0.
  destruct (pytest_configure w) as [r0 w0]. simpl in *.
  rewrite sessionstart_elsewhere by (by rewrite (proj1 He0)). simpl.
  pose proof (main_same_env w0) as He1.
  pose proof (main_same_conf w0) as Hc1.
  split.
  - by rewrite (coordinator_stable w0 _ He1 Hc1), (coordinator_stable w w0 He0 Hc0).
  - by rewrite (proj1 He1), (proj1 He0).
Qed.

(** Where the reports of a session go. *)
Lemma sends_to_report c st m : sends_to c (report_event st m).
Proof. intros h a p t H. by apply report_not_call in H. Qed.

Ltac sends_to_side :=
  first
    [ done
    | by intros ? ? ? ? [=]
    | (intros ? ?; apply sends_to_report)
    | (intros ? ? ? ? [=]; by subst) ].

Ltac sends_to_walk c :=
  repeat first
    [ apply (preserves_run_command (emits (sends_to c)) (sends_to c) (λ _ _, True));
        [sends_to_side | done]
    | apply (preserves_put_file (emits (sends_to c)) (sends_to c) (λ _ _, True));
        [sends_to_side | done]
    | apply (preserves_restart_evm_service (emits (sends_to c)) (sends_to c)
               (λ _ _, True)); [sends_to_side | done]
    | apply (preserves_wait_for_web_ui (emits (sends_to c)) (sends_to c)
               (λ _ _, True)); sends_to_side
    | apply (preserves_record (emits (sends_to c)) (sends_to c) (λ _ _, True));
        sends_to_side
    | apply (preserves_print_message (emits (sends_to c)) (sends_to c)
               (λ _ _, True)); [sends_to_side | sends_to_side]
    | apply (preserves_cfme_data_local_yum_repo (emits (sends_to c)) (sends_to c)
               (λ _ _, True))
    | apply (preserves_dict_get (emits (sends_to c)) (sends_to c) (λ _ _, True))
    | (intros ?; apply (frame_files (R:=emits (sends_to c))))
    | (intros ?; reflexivity)
    | pstep_in (emits (sends_to c)) (sends_to c)
        (λ _ _ : gmap string HostState, True) ].

Lemma install_sends_nothing c self :
  preserves (emits (sends_to c)) (install self).
Proof.
  pose proof (emits_frame (sends_to c)) as F.
  unfold install, _install_simplecov, _install_coverage_hook, log_info,
    write_local_file, act. cbv zeta.
  sends_to_walk c.
Qed.

Lemma main_sends_nothing c : preserves (emits (sends_to c)) pytest_main.
Proof.
  pose proof (emits_frame (sends_to c)) as F.
  assert (PreOrder (emits (sends_to c))) as PO by apply frame_pre.
  unfold pytest_main. apply (preserves_bind (emits (sends_to c))).
  - intros w. unfold pytest_collection_finish. simpl.
    assert (preserves (emits (sends_to c))
      (st ← get_store;
       (if decide (parallelizer_role st ≠ Some "master")
        then m ← manager; install m else ret tt);;
       (λ w2, (Ok tt, w2)))) as Hp; [|apply Hp].
    repeat first
      [ apply install_sends_nothing
      | pstep_in (emits (sends_to c)) (sends_to c)
          (λ _ _ : gmap string HostState, True)
      | (intros w'; reflexivity) ].
  - intros _.
    apply (preserves_record (emits (sends_to c)) (sends_to c) (λ _ _, True)).
    sends_to_side.
Qed.

(** [_collect_reports] sends to the collection appliance it finds. *)
Lemma collect_reports_sends_to self w c :
  coordinator w = Ok c → emits (sends_to c) w (_collect_reports self w).2.
Proof.
  intros Hc. rewrite collect_reports_split, bind_run, run_command_run. cbv zeta.
  destruct (oracle w (clock w) _) as [|out|e].
  3: { exists [Called (stop_call self)]. split; [done|].
       repeat constructor. sends_to_side. }
  all: rewrite (send_reports_run self _ c) by exact Hc.
  all: case_decide; cbv zeta; unfold scp_call, announce; wsimpl.
  all: try match goal with
       | |- context [oracle ?v ?n (RunCommand ?h (ScpCoverage ?a ?p) ?t)] =>
           destruct (oracle v n (RunCommand h (ScpCoverage a p) t))
       end.
  all: wsimpl; eexists;
    (split; [wsimpl; rewrite <- ?app_assoc; simpl; reflexivity|]).
  all: repeat constructor; sends_to_side.
Qed.

Lemma collect_sends_to self w c :
  coordinator w = Ok c → emits (sends_to c) w (collect self w).2.
Proof.
  intros Hc. pose proof (emits_frame (sends_to c)) as F.
  assert (PreOrder (emits (sends_to c))) as PO by apply frame_pre.
  unfold collect. apply (run_bind (emits (sends_to c))).
  { assert (preserves (emits (sends_to c))
      (print_message self "collecting reports")) as Hp by sends_to_walk c.
    apply Hp. }
  intros [] w1 Hp _. rewrite print_message_run in Hp. injection Hp as <-.
  apply (run_bind (emits (sends_to c))).
  { by apply collect_reports_sends_to. }
  intros [] w2 _ _.
  assert (preserves (emits (sends_to c)) (restart_evm_service (ipapp self)))
    as Hr by sends_to_walk c.
  apply Hr.
Qed.

Lemma sessionfinish_sends_to x w c :
  parallelizer_role (store w) = Some "slave" →
  coordinator w = Ok c →
  emits (sends_to c) w (pytest_sessionfinish x w).2.
Proof.
  intros Hr Hc. pose proof (emits_frame (sends_to c)) as F.
  assert (PreOrder (emits (sends_to c))) as PO by apply frame_pre.
  unfold pytest_sessionfinish. rewrite bind_run. unfold get_store at 1.
  rewrite bind_run, decide_True by (by rewrite Hr).
  rewrite bind_run, manager_run.
  destruct (version_lt _ _); [reflexivity|].
  pose proof (collect_sends_to (current_manager (store w)) w c Hc) as H.
  destruct (collect _ w) as [[[]|e] w1]; simpl in *; [|done].
  by rewrite decide_True.
Qed.

(** C8. The master's session start saves the address of its current
    appliance as the collection appliance; a slave that finds this saved
    value reads exactly that appliance, which is also what the master
    itself takes as collection appliance. Nothing else chooses: session
    start on any other process does nothing, and neither the phases nor
    [pytest_configure] touch the configuration. So a slave that starts
    with the value the master saved still finds it when its session-finish
    hook runs, after its own configure, session start and install; and
    whatever reports its session sends, it sends to that appliance. *)
Theorem collection_appliance_agreed (wm : World) :
  parallelizer_role (store wm) = Some "master" →
  version_lt (appliance_version wm (current_appliance (store wm))) "5.8" = false →
  let chosen := current_appliance (store wm) in
  let wm' := (pytest_sessionstart wm).2 in
  (pytest_sessionstart wm).1 = Ok tt ∧
  conf_saved wm' = Some (hostname chosen) ∧
  coordinator wm' = Ok chosen ∧
  (∀ ws self,
     parallelizer_role (store ws) = Some "slave" →
     conf_runtime ws = None →
     conf_saved ws = conf_saved wm' →
     collection_appliance self ws = (Ok chosen, ws)) ∧
  (∀ w, parallelizer_role (store w) ≠ Some "master" →
     pytest_sessionstart w = (Ok tt, w)) ∧
  (∀ self w,
     same_conf w (install self w).2 ∧ same_conf w (collect self w).2 ∧
     same_conf w (merge self w).2) ∧
  (∀ w, same_conf w (pytest_configure w).2) ∧
  (∀ ws,
     parallelizer_role (store ws) = Some "slave" →
     conf_runtime ws = None →
     conf_saved ws = conf_saved wm' →
     (∀ self, collection_appliance self (at_sessionfinish ws) =
              (Ok chosen, at_sessionfinish ws)) ∧
     Forall (sends_to chosen) (new_events ws (wrap_session ws).2)).
Proof.
  intros Hr Hv chosen wm'.
  assert (pytest_sessionstart wm =
    (Ok tt, set_conf_saved (Some chosen)
      (emit (ConfSaved ".ui-coverage") (set_conf_runtime (Some chosen) wm)))) as Hs.
  { unfold pytest_sessionstart. rewrite bind_run. unfold get_store at 1.
    rewrite decide_True by done.
    rewrite bind_run, manager_run, Hv, bind_run, collection_appliance_run.
    unfold coordinator. rewrite decide_False by (rewrite Hr; naive_solver).
    done. }
  assert (∀ ws, parallelizer_role (store ws) = Some "slave" →
    conf_runtime ws = None → conf_saved ws = conf_saved wm' →
    coordinator ws = Ok chosen) as Hslave.
  { intros ws Hrs Hrt Hsv. unfold coordinator.
    rewrite decide_True by done. rewrite Hrt, Hsv. subst wm'. by rewrite Hs. }
  subst wm'. rewrite Hs. rewrite Hs in Hslave. split_and!; try done.
  - unfold coordinator. simpl. by rewrite decide_False by (rewrite Hr; naive_solver).
  - intros ws self Hrs Hrt Hsv. rewrite collection_appliance_run.
    by rewrite (Hslave ws).
  - apply sessionstart_elsewhere.
  - intros self w. split_and!;
      [apply install_same_conf | apply collect_same_conf | apply merge_same_conf].
  - apply configure_same_conf.
  - intros ws Hrs Hrt Hsv.
    assert (parallelizer_role (store ws) ≠ Some "master") as Hnm
      by (by rewrite Hrs).
    destruct (coordinator_at_sessionfinish ws Hnm) as [Hco Hst].
    rewrite (Hslave ws Hrs Hrt Hsv) in Hco. split.
    { intros self. by rewrite collection_appliance_run, Hco. }
    pose proof (emits_frame (sends_to chosen)) as F.
    assert (PreOrder (emits (sends_to chosen))) as PO by apply frame_pre.
    assert (emits (sends_to chosen) ws (wrap_session ws).2) as He;
      [|by apply emits_new_events in He as [_ ?]].
    revert Hco Hst. unfold at_sessionfinish, wrap_session.
    rewrite bind_run, pytest_configure_run. cbn [fst snd].
    assert (emits (sends_to chosen) ws (configured ws)) as H0
      by (exists []; by rewrite app_nil_r).
    rewrite sessionstart_elsewhere by done. cbn [fst snd].
    pose proof (main_sends_nothing chosen (configured ws)) as H1.
    destruct (pytest_main (configured ws)) as [r w2]. cbn [fst snd] in *.
    intros Hco Hst. rewrite bind_run.
    pose proof (sessionfinish_sends_to
      (if is_Ok r then EXIT_OK else EXIT_INTERNALERROR) w2 chosen) as H2.
    destruct (pytest_sessionfinish _ w2) as [[[]|e] w3]; cbn [fst snd] in *.
    all: etrans; [exact H0|]; etrans; [exact H1|]; apply H2;
      [by rewrite Hst | done].
Qed.

(** ** Further properties of the phases *)

(** *** When [collect()] restarts the server *)

Lemma not_restart_report st m : not_restart (report_event st m).
Proof.
  unfold report_event. destruct (slave_manager st); [done|].
  by destruct (parallel_session st).
Qed.

Ltac walk_in R okE okH side :=
  repeat first
    [ apply (preserves_run_command R okE okH); [side | side]
    | apply (preserves_put_file R okE okH); [side | side]
    | apply (preserves_get_file R okE okH); side
    | apply (preserves_restart_evm_service R okE okH); [side | side]
    | apply (preserves_wait_for_web_ui R okE okH); side
    | apply (preserves_record R okE okH); side
    | apply (preserves_print_message R okE okH); [side | side]
    | apply (preserves_connect_password R okE okH)
    | apply (preserves_cfme_data_local_yum_repo R okE okH)
    | apply (preserves_dict_get R okE okH)
    | pstep_in R okE okH ].

Lemma collect_reports_no_restart self :
  preserves (emits not_restart) (_collect_reports self).
Proof.
  pose proof (emits_frame not_restart) as F.
  unfold _collect_reports.
  walk_in (emits not_restart) not_restart (λ _ _ : gmap string HostState, True)
    ltac:(first [done | intros ? ?; apply not_restart_report]).
Qed.

(** X1. [collect()] calls [restart_evm_service] exactly when
    [_collect_reports] returned normally; an exception of
    [_collect_reports] leaves [collect()] as it is, with the world as
    [_collect_reports] left it. *)
Theorem collect_restarts_iff_reports_return (self : CoverageManager) (w : World) :
  let reports := _collect_reports self (announce self "collecting reports" w) in
  (Called (RestartEvmService (ipapp self)) ∈ new_events w (collect self w).2
     ↔ is_Ok reports.1 = true) ∧
  (∀ e, reports.1 = Raise e → collect self w = (Raise e, reports.2)) ∧
  Forall not_restart (new_events w reports.2).
Proof.
  intros reports. unfold collect. rewrite bind_run, print_message_run.
  fold (announce self "collecting reports" w). rewrite bind_run.
  pose proof (collect_reports_no_restart self
    (announce self "collecting reports" w)) as (evs & Ht & Hf).
  fold reports in Ht |- *.
  assert (trace reports.2 = trace w ++
    (LogInfo (log self) "collecting reports" ::
     report_event (store w) ("coverage: " +:+ "collecting reports") :: evs)) as Hfull.
  { rewrite Ht. unfold announce. simpl. by rewrite <- !app_assoc. }
  assert (Forall not_restart
    (LogInfo (log self) "collecting reports" ::
     report_event (store w) ("coverage: " +:+ "collecting reports") :: evs)) as Hall.
  { repeat constructor; [apply not_restart_report | done]. }
  split_and!.
  - destruct reports as [[[]|e] w1] eqn:E; simpl in *.
    + split; [done|]. intros _.
      rewrite restart_evm_service_run. cbv zeta.
      assert (Called (RestartEvmService (ipapp self)) ∈
        new_events w (emit (Called (RestartEvmService (ipapp self))) (tick w1))) as Hin.
      { erewrite new_events_app
          by (simpl; rewrite Hfull, <- app_assoc; reflexivity).
        rewrite elem_of_app, list_elem_of_singleton. by right. }
      by destruct (oracle w1 (clock w1) _).
    + split; [|done]. rewrite (new_events_app _ _ _ Hfull). intros Hin.
      rewrite Forall_forall in Hall. by apply Hall in Hin.
  - intros e He. destruct reports as [r w1]. simpl in *. by subst r.
  - by rewrite (new_events_app _ _ _ Hfull).
Qed.

(** *** A slave that finds no collection appliance *)

Lemma collect_run self w :
  collect self w =
  match _collect_reports self (announce self "collecting reports" w) with
  | (Ok _, w1) => restart_evm_service (ipapp self) w1
  | (Raise e, w1) => (Raise e, w1)
  end.
Proof. unfold collect. by rewrite bind_run, print_message_run, bind_run. Qed.

Lemma slave_reports_raise self w :
  parallelizer_role (store w) = Some "slave" →
  conf_runtime w = None →
  conf_saved w = None →
  (∀ e, fault_at w 0 (stop_call self) ≠ Throws e) →
  ∃ w1, _collect_reports self w = (Raise (KeyError "collection_appliance"), w1) ∧
    trace w1 = trace w ++ [Called (stop_call self)] ∧
    (fault_at w 0 (stop_call self) = NoFault →
     evm_running (host_of (hosts w1) (ipapp self)) = false).
Proof.
  intros Hr Hrt Hsv Hstop.
  unfold fault_at, stop_call in *. simpl in Hstop.
  rewrite collect_reports_split, bind_run, run_command_run. cbv zeta.
  assert (∀ w1, store w1 = store w → conf_runtime w1 = conf_runtime w →
    conf_saved w1 = conf_saved w →
    send_reports self w1 = (Raise (KeyError "collection_appliance"), w1)) as Hs.
  { intros w1 E1 E2 E3. unfold send_reports.
    rewrite bind_run. unfold get_store at 1.
    rewrite bind_run, collection_appliance_run. unfold coordinator.
    by rewrite E1, E2, E3, Hr, Hrt, Hsv, decide_True. }
  destruct (oracle w (clock w) _) as [|out|e] eqn:Eo;
    [| |by destruct (Hstop e)].
  - rewrite Hs by done. eexists. split; [reflexivity|]. split; [reflexivity|].
    intros _. simpl. by rewrite host_of_update, decide_True.
  - rewrite Hs by done. eexists. split; [reflexivity|]. split; [reflexivity|].
    intros Hn. simpl in Hn. congruence.
Qed.

(** X2. On a slave process for which no collection appliance is
    configured, neither at run time nor saved, [_collect_reports] issues
    the stop command and then raises the [KeyError] of the lookup, without
    attempting a transfer; [collect()] raises it too and does not restart
    the server, which an undisturbed stop has left stopped. *)
Theorem slave_without_coordinator (self : CoverageManager) (w : World) :
  parallelizer_role (store w) = Some "slave" →
  conf_runtime w = None →
  conf_saved w = None →
  (∀ e, fault_at w 0 (stop_call self) ≠ Throws e) →
  (_collect_reports self w).1 = Raise (KeyError "collection_appliance") ∧
  new_events w (_collect_reports self w).2 = [Called (stop_call self)] ∧
  (collect self w).1 = Raise (KeyError "collection_appliance") ∧
  new_events w (collect self w).2 =
    [ LogInfo (log self) "collecting reports";
      report_event (store w) "coverage: collecting reports";
      Called (stop_call self) ] ∧
  (fault_at w 0 (stop_call self) = NoFault →
   evm_running (host_of (hosts (collect self w).2) (ipapp self)) = false).
Proof.
  intros Hr Hrt Hsv Hstop.
  destruct (slave_reports_raise self w Hr Hrt Hsv Hstop) as (w1 & E & Ht & _).
  destruct (slave_reports_raise self (announce self "collecting reports" w)
    Hr Hrt Hsv Hstop) as (w2 & E2 & Ht2 & Hrun).
  rewrite collect_run, E, E2. simpl. split_and!; [done | | done | | done].
  - by apply new_events_app.
  - apply new_events_app. rewrite Ht2. simpl. by rewrite <- !app_assoc.
Qed.

(** *** Configure *)


(** *** What a master process does to the appliances *)

Lemma retrieval_only_report coll dest st m :
  retrieval_only coll dest (report_event st m).
Proof.
  unfold report_event. destruct (slave_manager st); [done|].
  by destruct (parallel_session st).
Qed.

Lemma merge_retrieval_only self w :
  parallelizer_role (store w) ≠ Some "slave" →
  emits (retrieval_only (current_appliance (store w)) coverage_results_archive)
    w (merge self w).2.
Proof.
  intros Hr.
  set (P := retrieval_only (current_appliance (store w)) coverage_results_archive).
  set (coll := current_appliance (store w)) in *.
  pose proof (emits_frame P) as F.
  assert (PreOrder (emits P)) as PO by apply frame_pre.
  unfold merge. apply (run_bind (emits P)).
  { apply (preserves_print_message (emits P) P (λ _ _, True));
      [done | intros; apply retrieval_only_report]. }
  intros [] w1 Hp _. rewrite print_message_run in Hp. injection Hp as <-.
  unfold try_except, _retrieve_coverage_reports.
  rewrite bind_run, collection_appliance_run.
  assert (coordinator (announce self "merging reports" w) = Ok coll) as Hc.
  { unfold coordinator. simpl. by rewrite decide_False. }
  unfold announce in Hc. rewrite Hc.
  assert (preserves (emits P)
    (_ ← run_command coll TarRawCoverage None;
     get_file coll raw_archive coverage_results_archive)) as Hret.
  { walk_in (emits P) P (λ _ _ : gmap string HostState, True)
      ltac:(first [done | by left | by right | by (simpl; auto)]). }
  assert (∀ exc, preserves (emits P)
    (log_error self "Error merging coverage reports";;
     log_exception self exc;;
     print_message self "merging reports failed, error has been logged")) as Hh.
  { intros exc. unfold log_error, log_exception.
    walk_in (emits P) P (λ _ _ : gmap string HostState, True)
      ltac:(first [done | intros; apply retrieval_only_report]). }
  match goal with |- context [bind ?m ?k ?w0] => specialize (Hret w0);
    destruct (bind m k w0) as [[[]|exc] w2] end; simpl in *; [done|].
  etrans; [exact Hret | apply Hh].
Qed.

(** X4. A master process leaves the appliances alone: in a whole session
    the only calls it makes are, at session finish, the archiving of the
    raw reports on its current appliance and the fetching of that
    archive. It installs nothing and stops or restarts no server. *)
Theorem master_session_only_retrieves (w : World) :
  parallelizer_role (store w) = Some "master" →
  Forall (retrieval_only (current_appliance (store w)) coverage_results_archive)
    (new_events w (wrap_session w).2).
Proof.
  intros Hr.
  set (P := retrieval_only (current_appliance (store w)) coverage_results_archive).
  assert (emits P w (wrap_session w).2) as H;
    [|by apply emits_new_events in H as [_ ?]].
  pose proof (emits_frame P) as F.
  assert (PreOrder (emits P)) as PO by apply frame_pre.
  unfold wrap_session. rewrite bind_run, pytest_configure_run.
  set (w0 := configured w).
  assert (store w0 = store w) as Hst by done.
  assert (emits P w w0) as H0 by (exists []; by rewrite app_nil_r).
  clearbody w0.
  assert (preserves (emits P) pytest_sessionstart) as Hss.
  { unfold pytest_sessionstart, conf_save.
    repeat first
      [ apply (preserves_record (emits P) P (λ _ _, True)); done
      | pstep_in (emits P) P (λ _ _ : gmap string HostState, True)
      | (intros w'; exists []; by rewrite app_nil_r) ]. }
  specialize (Hss w0). pose proof (same_env_frame) as Fe.
  assert (preserves same_env pytest_sessionstart) as Hse.
  { apply (preserves_pytest_sessionstart same_env (λ _, True) (λ _ _, True));
      done. }
  specialize (Hse w0).
  destruct (pytest_sessionstart w0) as [[[]|e1] w1]; simpl in *; [|by etrans].
  destruct Hse as (Hst1 & _). rewrite Hst in Hst1.
  unfold pytest_main. rewrite bind_run.
  assert (pytest_collection_finish (ret tt) w1 = (Ok tt, w1)) as ->.
  { unfold pytest_collection_finish. simpl. rewrite bind_run.
    unfold get_store at 1. rewrite Hst1, Hr.
    by rewrite decide_False by (intros H; by apply H). }
  simpl. rewrite bind_run.
  set (w2 := emit TestsRun w1).
  assert (emits P w1 w2) as H2 by (exists [TestsRun]; by repeat constructor).
  assert (emits P w2 (pytest_sessionfinish EXIT_OK w2).2) as H3.
  { unfold pytest_sessionfinish. rewrite bind_run. unfold get_store at 1.
    assert (parallelizer_role (store w2) = Some "master") as Hr2
      by (unfold w2; simpl; by rewrite Hst1).
    rewrite bind_run, Hr2.
    rewrite decide_False by (intros H; by apply H). simpl.
    rewrite bind_run, manager_run.
    destruct (version_lt _ _); simpl; [reflexivity|].
    assert (current_appliance (store w) = current_appliance (store w2)) as Hcur
      by (unfold w2; simpl; by rewrite Hst1).
    unfold P. rewrite Hcur. apply merge_retrieval_only. by rewrite Hr2. }
  destruct (pytest_sessionfinish EXIT_OK w2) as [[[]|e3] w3]; simpl in *.
  all: etrans; [exact H0|]; etrans; [exact Hss|]; etrans; [exact H2|]; exact H3.
Qed.

(** *** Runs that return normally *)

Lemma hoare_bind {A B} P (m : M A) Q (k : A → M B) S :
  hoare P m Q → (∀ a, hoare (Q a) (k a) S) → hoare P (bind m k) S.
Proof.
  intros Hm Hk w Hw. destruct (Hm w Hw) as (a & w1 & E & Hq).
  rewrite bind_run, E. by apply Hk.
Qed.

Lemma hoare_ret {A} (P : World → Prop) (a : A) (Q : A → World → Prop) :
  (∀ w, P w → Q a w) → hoare P (ret a) Q.
Proof. intros H w Hw. exists a, w. split; [done | by apply H]. Qed.

Lemma hoare_weaken {A} (P P' : World → Prop) (m : M A) (Q Q' : A → World → Prop) :
  (∀ w, P' w → P w) → (∀ a w, Q a w → Q' a w) → hoare P m Q → hoare P' m Q'.
Proof.
  intros HP HQ H w Hw. destruct (H w (HP w Hw)) as (a & w1 & E & Hq).
  exists a, w1. split; [done | by apply HQ].
Qed.

Lemma hoare_assume {A} (I : World → Prop) (V : Prop) (m : M A) Q :
  (V → hoare I m Q) → hoare (λ w, I w ∧ V) m Q.
Proof. intros H w [Hw Hv]. by apply H. Qed.

Lemma yields_hoare {A} P (m : M A) evs Q : yields P m evs Q → hoare P m Q.
Proof.
  intros H w Hw. destruct (H w Hw) as (a & w1 & E & _ & Hq). by exists a, w1.
Qed.

Lemma yields_cons {A B} P (m : M A) ev Q (k : A → M B) evs S :
  yields P m [ev] Q → (∀ a, yields (Q a) (k a) evs S) →
  yields P (bind m k) (ev :: evs) S.
Proof.
  intros Hm Hk w Hw. destruct (Hm w Hw) as (a & w1 & E & Ht & Hq).
  destruct (Hk a w1 Hq) as (b & w2 & E2 & Ht2 & Hs).
  exists b, w2. rewrite bind_run, E. split; [done|]. split; [|done].
  by rewrite Ht2, Ht, <- app_assoc.
Qed.

Lemma yields_nil {A B} P (m : M A) Q (k : A → M B) evs S :
  yields P m [] Q → (∀ a, yields (Q a) (k a) evs S) →
  yields P (bind m k) evs S.
Proof.
  intros Hm Hk w Hw. destruct (Hm w Hw) as (a & w1 & E & Ht & Hq).
  destruct (Hk a w1 Hq) as (b & w2 & E2 & Ht2 & Hs).
  exists b, w2. rewrite bind_run, E. split; [done|]. split; [|done].
  by rewrite Ht2, Ht, app_nil_r.
Qed.

Lemma yields_ret {A} (P : World → Prop) (a : A) (Q : A → World → Prop) :
  (∀ w, P w → Q a w) → yields P (ret a) [] Q.
Proof.
  intros H w Hw. exists a, w. split; [done|].
  split; [by rewrite app_nil_r | by apply H].
Qed.

Lemma yields_weaken {A} (P P' : World → Prop) (m : M A) evs
    (Q Q' : A → World → Prop) :
  (∀ w, P' w → P w) → (∀ a w, Q a w → Q' a w) →
  yields P m evs Q → yields P' m evs Q'.
Proof.
  intros HP HQ H w Hw. destruct (H w (HP w Hw)) as (a & w1 & E & Ht & Hq).
  exists a, w1. split; [done|]. split; [done | by apply HQ].
Qed.

Lemma yields_assume {A} (I : World → Prop) (V : Prop) (m : M A) evs Q :
  (V → yields I m evs Q) → yields (λ w, I w ∧ V) m evs Q.
Proof. intros H w [Hw Hv]. by apply H. Qed.

Lemma fails_cons {A B} P (m : M A) ev Q (k : A → M B) evs e S :
  yields P m [ev] Q → (∀ a, fails (Q a) (k a) evs e S) →
  fails P (bind m k) (ev :: evs) e S.
Proof.
  intros Hm Hk w Hw. destruct (Hm w Hw) as (a & w1 & E & Ht & Hq).
  destruct (Hk a w1 Hq) as (w2 & E2 & Ht2 & Hs).
  exists w2. rewrite bind_run, E. split; [done|]. split; [|done].
  by rewrite Ht2, Ht, <- app_assoc.
Qed.

Lemma fails_first {A B} P (m : M A) (k : A → M B) evs e S :
  fails P m evs e S → fails P (bind m k) evs e S.
Proof.
  intros Hm w Hw. destruct (Hm w Hw) as (w1 & E & Ht & Hs).
  exists w1. by rewrite bind_run, E.
Qed.

Lemma fails_assume {A} (I : World → Prop) (V : Prop) (m : M A) evs e Q :
  (V → fails I m evs e Q) → fails (λ w, I w ∧ V) m evs e Q.
Proof. intros H w [Hw Hv]. by apply H. Qed.

(** The calls, whatever the pre- and postcondition. *)
Lemma yields_run_command_wp h c t (P : World → Prop) (Q : SSHResult → World → Prop) :
  (∀ w, P w →
     match oracle w (clock w) (RunCommand h c t) with
     | NoFault =>
         Q (exec_command h c (hosts w)).1
           (emit (Called (RunCommand h c t))
              (tick (set_hosts (exec_command h c (hosts w)).2 w)))
     | CommandFails out =>
         Q (mkResult false out) (emit (Called (RunCommand h c t)) (tick w))
     | Throws _ => False
     end) →
  yields P (run_command h c t) [Called (RunCommand h c t)] Q.
Proof.
  intros H w Hw. specialize (H w Hw). rewrite run_command_run. cbv zeta.
  destruct (oracle w (clock w) _); [by eexists _, _.. | done].
Qed.

Lemma put_file_run h l r w :
  put_file h l r w =
  let w1 := emit (Called (PutFile h l r)) (tick w) in
  match oracle w (clock w) (PutFile h l r) with
  | NoFault => (Ok tt, set_hosts (update_host h (add_file r) (hosts w)) w1)
  | CommandFails _ => (Ok tt, w1)
  | Throws e => (Raise e, w1)
  end.
Proof.
  unfold put_file, bind, external. simpl. by destruct (oracle w (clock w) _).
Qed.

Lemma with_repo_data_run {A} (k : RepoData → M A) w :
  with_repo_data k w =
  match local_yum_repo_data w with
  | Some d => k d w
  | None => (Raise (KeyError (missing_key w)), w)
  end.
Proof.
  unfold with_repo_data, local_yum_repo_data, missing_key, repo_entry,
    cfme_data_local_yum_repo, dict_get, bind.
  destruct (basic_info w) as [[d|]|]; [|done..].
  destruct (d !! "name"); [|done]. destruct (d !! "baseurl"); [|done].
  destruct (d !! "enabled"); [|done]. by destruct (d !! "gpgcheck").
Qed.

(** The hook step, with the lookups in [cfme_data] and the steps that
    follow them under their names. *)
Lemma hook_unfold self :
  _install_coverage_hook self =
  (_ ← run_command (ipapp self) RmCoverageRoot None;
   put_file (ipapp self) coverage_hook
     (path_join (path_join rails_root "config") coverage_hook_file_name);;
   result ← run_command (ipapp self) TestMarker None;
   if success result then ret true
   else
     log_info self "Patching system with manageiq patch #17302";;
     put_file (ipapp self) local_coverage_hook_patch remote_coverage_hook_patch;;
     result ← run_command (ipapp self) RpmQueryPatch None;
     (if negb (success result) then with_repo_data (yum_setup self)
      else ret tt);;
     result ← run_command (ipapp self) ApplyPatch None;
     ret (success result)).
Proof. reflexivity. Qed.

Section StableRules.
Context (self : CoverageManager) (okC : Command → Prop) (I : World → Prop).
Context (HI : Stable (ipapp self) okC I).
Context (Hok : ∀ c, c ≠ ApplyPatch → okC c).

Lemma yields_run_command c t (V : SSHResult → Prop) :
  okC c →
  (∀ w, I w → oracle w (clock w) (RunCommand (ipapp self) c t) = NoFault →
     V (exec_command (ipapp self) c (hosts w)).1) →
  (∀ out, V (mkResult false out)) →
  yields I (run_command (ipapp self) c t)
    [Called (RunCommand (ipapp self) c t)] (λ r w, I w ∧ V r).
Proof.
  intros Hc Hv Hf. apply yields_run_command_wp. intros w Hw.
  pose proof (stable_no_throw _ _ _ HI (RunCommand (ipapp self) c t)) as Hn.
  destruct (oracle w (clock w) _) as [|out|e] eqn:Eo.
  - split; [|by apply Hv].
    by apply (stable_emit _ _ _ HI), (stable_tick _ _ _ HI),
      (stable_exec _ _ _ HI c t).
  - split; [|done]. by apply (stable_emit _ _ _ HI), (stable_tick _ _ _ HI).
  - by destruct (Hn e w Hw).
Qed.

Lemma yields_command c t :
  okC c →
  yields I (run_command (ipapp self) c t)
    [Called (RunCommand (ipapp self) c t)] (λ _, I).
Proof.
  intros Hc.
  apply (yields_weaken I _ _ _ (λ r w, I w ∧ True)); [done | by intros ?? [] |].
  by apply yields_run_command.
Qed.

Lemma yields_put_file l r :
  r ≠ marker_file →
  yields I (put_file (ipapp self) l r)
    [Called (PutFile (ipapp self) l r)] (λ _, I).
Proof.
  intros Hr w Hw. rewrite put_file_run. cbv zeta.
  pose proof (stable_no_throw _ _ _ HI (PutFile (ipapp self) l r)) as Hn.
  destruct (oracle w (clock w) _) as [|out|e] eqn:Eo;
    [| |by destruct (Hn e w Hw)].
  - eexists _, _. split; [reflexivity|]. split; [reflexivity|].
    change (I (emit (Called (PutFile (ipapp self) l r))
      (tick (set_hosts (update_host (ipapp self) (add_file r) (hosts w)) w)))).
    by apply (stable_emit _ _ _ HI), (stable_tick _ _ _ HI),
      (stable_put _ _ _ HI).
  - eexists _, _. split; [reflexivity|]. split; [reflexivity|].
    by apply (stable_emit _ _ _ HI), (stable_tick _ _ _ HI).
Qed.

Lemma yields_record e : yields I (record e) [e] (λ _, I).
Proof.
  intros w Hw. eexists _, _. split; [reflexivity|]. split; [reflexivity|].
  by apply (stable_emit _ _ _ HI).
Qed.

Lemma yields_write_local_file p c :
  yields I (write_local_file p c) [WriteLocalFile p c] (λ _, I).
Proof.
  intros w Hw. eexists _, _. split; [reflexivity|]. split; [reflexivity|].
  by apply (stable_files _ _ _ HI), (stable_emit _ _ _ HI).
Qed.

Lemma keeps_bind {A B} (m : M A) (k : A → M B) :
  keeps I m → (∀ a, keeps I (k a)) → keeps I (bind m k).
Proof. intros Hm Hk. by apply (hoare_bind _ _ (λ _, I)). Qed.

Lemma keeps_ret {A} (a : A) : keeps I (ret a).
Proof. by apply hoare_ret. Qed.

Lemma keeps_command c t : okC c → keeps I (run_command (ipapp self) c t).
Proof. intros Hc. by apply (yields_hoare _ _ _ _ (yields_command c t Hc)). Qed.

Lemma keeps_put_file l r : r ≠ marker_file → keeps I (put_file (ipapp self) l r).
Proof. intros Hr. by apply (yields_hoare _ _ _ _ (yields_put_file l r Hr)). Qed.

Lemma keeps_record e : keeps I (record e).
Proof. apply (yields_hoare _ _ _ _ (yields_record e)). Qed.

Lemma keeps_print_message (s : CoverageManager) msg : keeps I (print_message s msg).
Proof.
  intros w Hw. rewrite print_message_run. eexists _, _.
  split; [reflexivity|]. by do 2 apply (stable_emit _ _ _ HI).
Qed.

Lemma keeps_simplecov : keeps I (_install_simplecov self).
Proof.
  unfold _install_simplecov, log_info. cbv zeta.
  repeat first
    [ apply keeps_command; by apply Hok
    | apply keeps_put_file; done
    | apply keeps_record
    | apply keeps_ret
    | (intros w Hw; by eexists _, w)
    | apply keeps_bind; [|intros ?]
    | match goal with |- keeps _ (if ?b then _ else _) => destruct b end ].
Qed.

(** The hook step returns as soon as the repository data is there
    whenever the query for [patch] fails. *)
Lemma yields_yum_setup d : yields I (yum_setup self d) (yum_steps self d) (λ _, I).
Proof.
  unfold yum_setup, yum_steps.
  eapply yields_cons; [apply yields_write_local_file|]. intros ?; cbv beta.
  eapply yields_cons; [by apply yields_put_file|]. intros ?; cbv beta.
  eapply yields_cons; [by apply yields_command, Hok|]. intros ?; cbv beta.
  eapply yields_cons; [by apply yields_command, Hok|]. intros ?; cbv beta.
  by apply yields_ret.
Qed.

Lemma keeps_hook :
  okC ApplyPatch →
  (∀ w, I w →
     local_yum_repo_data w ≠ None ∨
     oracle w (clock w) (RunCommand (ipapp self) RpmQueryPatch None) = NoFault) →
  keeps I (_install_coverage_hook self).
Proof.
  intros Hp Hrepo. rewrite hook_unfold. unfold log_info.
  apply keeps_bind; [by apply keeps_command, Hok|]. intros _.
  apply keeps_bind; [by apply keeps_put_file|]. intros _.
  apply keeps_bind; [by apply keeps_command, Hok|]. intros r.
  destruct (success r); [apply keeps_ret|].
  apply keeps_bind; [apply keeps_record|]. intros _.
  apply keeps_bind; [by apply keeps_put_file|]. intros _.
  apply (hoare_bind _ _
    (λ r w, I w ∧ (success r = false → local_yum_repo_data w ≠ None))).
  { apply yields_hoare with (evs := [Called (RunCommand (ipapp self) RpmQueryPatch None)]).
    apply yields_run_command_wp. intros w Hw.
    pose proof (stable_no_throw _ _ _ HI
      (RunCommand (ipapp self) RpmQueryPatch None)) as Hn.
    destruct (oracle w (clock w) _) as [|out|e] eqn:Eo;
      [| |by destruct (Hn e w Hw)].
    - split; [|done].
      apply (stable_emit _ _ _ HI), (stable_tick _ _ _ HI),
        (stable_exec _ _ _ HI RpmQueryPatch None); [by apply Hok | done | done].
    - split; [by apply (stable_emit _ _ _ HI), (stable_tick _ _ _ HI)|].
      intros _. destruct (Hrepo w Hw) as [?|?]; [done | congruence]. }
  intros r2.
  apply (hoare_bind _ _ (λ _, I)).
  { destruct (success r2); simpl.
    - intros w [Hw _]. by eexists _, w.
    - intros w [Hw Hd]. rewrite with_repo_data_run.
      destruct (local_yum_repo_data w) as [d|] eqn:Ed; [|by destruct Hd].
      destruct (yields_yum_setup d w Hw) as (a & w' & E & _ & Hw').
      by exists a, w'. }
  intros _. apply keeps_bind; [by apply keeps_command|]. intros r3.
  apply keeps_ret.
Qed.
Lemma hoare_restart :
  (∀ w, I w → oracle w (clock w) (RestartEvmService (ipapp self)) = NoFault) →
  hoare I (restart_evm_service (ipapp self))
    (λ _ w, I w ∧ evm_running (host_of (hosts w) (ipapp self)) = true).
Proof.
  intros Hr w Hw. rewrite restart_evm_service_run, (Hr w Hw). cbv zeta.
  eexists _, _. split; [reflexivity|]. split.
  - change (I (emit (Called (RestartEvmService (ipapp self)))
      (tick (set_hosts (update_host (ipapp self) (set_running true) (hosts w)) w)))).
    by apply (stable_emit _ _ _ HI), (stable_tick _ _ _ HI),
      (stable_restart _ _ _ HI).
  - wsimpl. by rewrite host_of_update, decide_True.
Qed.

Lemma hoare_restart_wait :
  (∀ w, I w → oracle w (clock w) (RestartEvmService (ipapp self)) = NoFault) →
  (∀ w, I w → oracle w (clock w) (WaitForWebUi (ipapp self)) = NoFault) →
  hoare I (restart_evm_service (ipapp self);; wait_for_web_ui (ipapp self))
    (λ _ w, I w ∧ evm_running (host_of (hosts w) (ipapp self)) = true).
Proof.
  intros Hr Hwt. eapply hoare_bind; [by apply hoare_restart|].
  intros _ w [Hw Hrun].
  unfold wait_for_web_ui, bind, external. rewrite (Hwt w Hw).
  change (hosts (emit (Called (WaitForWebUi (ipapp self))) (tick w)))
    with (hosts w).
  rewrite Hrun. eexists _, _. split; [reflexivity|].
  split; [|done]. by apply (stable_emit _ _ _ HI), (stable_tick _ _ _ HI).
Qed.

Lemma hoare_install :
  okC ApplyPatch →
  (∀ w, I w →
     local_yum_repo_data w ≠ None ∨
     oracle w (clock w) (RunCommand (ipapp self) RpmQueryPatch None) = NoFault) →
  (∀ w, I w → oracle w (clock w) (RestartEvmService (ipapp self)) = NoFault) →
  (∀ w, I w → oracle w (clock w) (WaitForWebUi (ipapp self)) = NoFault) →
  hoare I (install self)
    (λ _ w, I w ∧ evm_running (host_of (hosts w) (ipapp self)) = true).
Proof.
  intros Hp Hrepo Hr Hwt. unfold install.
  apply (hoare_bind _ _ (λ _, I)); [apply keeps_print_message|]. intros _.
  apply (hoare_bind _ _ (λ _, I)); [apply keeps_simplecov|]. intros _.
  apply (hoare_bind _ _ (λ _, I)); [by apply keeps_hook|]. intros _.
  by apply hoare_restart_wait.
Qed.

(** The phases of a process that is its own collection appliance, in an
    environment that disturbs nothing. *)
Lemma keeps_collect_reports :
  (∀ w, I w → coordinator w = Ok (current_appliance (store w))) →
  keeps I (_collect_reports self).
Proof.
  intros Hc. unfold _collect_reports.
  apply keeps_bind; [by apply keeps_command, Hok|]. intros _.
  apply (hoare_bind _ _ (λ st w, I w ∧ st = store w)).
  { intros w Hw. by exists (store w), w. }
  intros st.
  apply (hoare_bind _ _ (λ coll w, I w ∧ coll = current_appliance st)).
  { intros w [Hw ->]. rewrite collection_appliance_run, (Hc w Hw).
    by eexists _, w. }
  intros coll. apply hoare_assume. intros ->.
  destruct (decide _) as [Hn|_]; [by destruct Hn | apply keeps_ret].
Qed.

Lemma hoare_collect :
  (∀ w, I w → coordinator w = Ok (current_appliance (store w))) →
  (∀ w, I w → oracle w (clock w) (RestartEvmService (ipapp self)) = NoFault) →
  hoare I (collect self)
    (λ _ w, I w ∧ evm_running (host_of (hosts w) (ipapp self)) = true).
Proof.
  intros Hc Hr. unfold collect.
  apply (hoare_bind _ _ (λ _, I)); [apply keeps_print_message|]. intros _.
  apply (hoare_bind _ _ (λ _, I)); [by apply keeps_collect_reports|]. intros _.
  by apply hoare_restart.
Qed.

Lemma hoare_merge :
  (∀ w, I w → coordinator w = Ok (ipapp self)) →
  (∀ w c, I w → oracle w (clock w) c = NoFault) →
  hoare (λ w, I w ∧ evm_running (host_of (hosts w) (ipapp self)) = true)
    (merge self)
    (λ _ w, I w ∧ evm_running (host_of (hosts w) (ipapp self)) = true ∧
            coverage_results_archive ∈ local_files w).
Proof.
  intros Hc Hu.
  set (run := λ w, evm_running (host_of (hosts w) (ipapp self)) = true).
  assert (hoare (λ w, I w ∧ run w) (_retrieve_coverage_reports self)
    (λ _ w, I w ∧ run w ∧ coverage_results_archive ∈ local_files w)) as Hret.
  { unfold _retrieve_coverage_reports.
    apply (hoare_bind _ _ (λ coll w, (I w ∧ run w) ∧ coll = ipapp self)).
    { intros w [Hw Hrun]. rewrite collection_appliance_run, (Hc w Hw).
      by eexists _, w. }
    intros coll. apply hoare_assume. intros ->.
    apply (hoare_bind _ _
      (λ _ w, (I w ∧ run w) ∧ raw_archive ∈ files (host_of (hosts w) (ipapp self)))).
    { apply (yields_hoare _ _ [Called (RunCommand (ipapp self) TarRawCoverage None)]).
      apply yields_run_command_wp. intros w [Hw Hrun]. rewrite (Hu w _ Hw).
      split; [split|].
      - apply (stable_emit _ _ _ HI), (stable_tick _ _ _ HI),
          (stable_exec _ _ _ HI TarRawCoverage None);
          [by apply Hok | done | by apply Hu].
      - unfold run. wsimpl. simpl. by rewrite host_of_update, decide_True.
      - wsimpl. simpl. rewrite host_of_update, decide_True by done.
        simpl. apply elem_of_union_l. by apply elem_of_singleton. }
    intros _ w [[Hw Hrun] Hf]. unfold get_file, bind, external.
    rewrite (Hu w _ Hw).
    change (hosts (emit (Called (GetFile (ipapp self) raw_archive
      coverage_results_archive)) (tick w))) with (hosts w).
    rewrite bool_decide_true by done.
    eexists _, _. split; [reflexivity|]. split; [|split; [exact Hrun|]].
    - by apply (stable_files _ _ _ HI), (stable_emit _ _ _ HI),
        (stable_tick _ _ _ HI).
    - wsimpl. apply elem_of_union_l. by apply elem_of_singleton. }
  unfold merge.
  apply (hoare_bind _ _ (λ _ w, I w ∧ run w)).
  { intros w [Hw Hrun]. rewrite print_message_run. eexists _, _.
    split; [reflexivity|]. split; [|exact Hrun].
    by do 2 apply (stable_emit _ _ _ HI). }
  intros _ w Hw. unfold try_except.
  destruct (Hret w Hw) as ([] & w1 & E & H1). rewrite E. by eexists _, _.
Qed.
End StableRules.

(** *** Invariants of an install *)

Lemma not_marker_update h f hs h' :
  (∀ s, marker_file ∈ files (f s) → marker_file ∈ files s) →
  ¬ marker_on hs h' → ¬ marker_on (update_host h f hs) h'.
Proof.
  unfold marker_on. intros Hf Hm. rewrite host_of_update.
  case_decide; [subst; by intros ?%Hf | done].
Qed.

Lemma exec_no_marker h c hs h' :
  c ≠ ApplyPatch → ¬ marker_on hs h' → ¬ marker_on (exec_command h c hs).2 h'.
Proof.
  intros Hc Hm. destruct c; simpl; try done.
  all: apply not_marker_update; [|done]; intros s; simpl; try done.
  - rewrite elem_of_difference. by intros [? _].
  - by destruct (evm_running s).
  - rewrite elem_of_union, elem_of_singleton. by intros [[=]|?].
Qed.

Lemma put_no_marker h r hs h' :
  r ≠ marker_file → ¬ marker_on hs h' →
  ¬ marker_on (update_host h (add_file r) hs) h'.
Proof.
  intros Hr. apply not_marker_update. intros s. simpl.
  rewrite elem_of_union, elem_of_singleton. by intros [?|?].
Qed.

Lemma stable_gentle h :
  Stable h (λ _, True) (λ w, gentle h w ∧ local_yum_repo_data w ≠ None).
Proof.
  split; [intros c e w [(Hn & _) _]; apply Hn|..].
  all: intros; match goal with H : _ ∧ _ |- _ => exact H end.
Qed.

(** X5. [install()] never fails because a remote command fails: in an
    environment where no call raises, the restart and the health check of
    the appliance go through and the repository data is configured,
    [install()] returns normally whatever the commands report, and leaves
    the server running. *)
Theorem install_ignores_command_failures (self : CoverageManager) (w : World) :
  gentle (ipapp self) w →
  local_yum_repo_data w ≠ None →
  (install self w).1 = Ok tt ∧
  evm_running (host_of (hosts (install self w).2) (ipapp self)) = true.
Proof.
  intros Hg Hd.
  destruct (hoare_install self _ _ (stable_gentle (ipapp self))) with (w := w)
    as ([] & w1 & -> & _ & Hrun); try done.
  - intros w' [_ ?]. by left.
  - by intros w' [(_ & Hr & _) _].
  - by intros w' [(_ & _ & Hw) _].
Qed.


(** *** When the patch command fails *)

Lemma stable_failed_patch h :
  Stable h (λ _, True)
    (λ w, (gentle h w ∧ local_yum_repo_data w ≠ None) ∧
          command_fails h ApplyPatch w ∧ ¬ marker_on (hosts w) h).
Proof.
  split; [intros c e w [[(Hn & _) _] _]; apply Hn|..].
  - intros e w H. exact H.
  - intros w H. exact H.
  - intros fs w H. exact H.
  - intros c t w _ (Hg & Hp & Hm) Ho. split; [exact Hg|]. split; [exact Hp|].
    destruct (decide (c = ApplyPatch)) as [->|Hc]; [by destruct (Hp _ _ Ho)|].
    by apply exec_no_marker.
  - intros r w Hr (Hg & Hp & Hm). split; [exact Hg|]. split; [exact Hp|].
    by apply put_no_marker.
  - intros w (Hg & Hp & Hm). split; [exact Hg|]. split; [exact Hp|].
    by apply not_marker_update.
Qed.

(** X6. [install()] does not look at what the hook step returns. On an
    appliance without the marker file whose [patch] command fails, the
    hook step returns [False]; [install()] still restarts the server and
    returns normally, and the appliance is left without the marker
    file. *)
Theorem install_ignores_failed_patch (self : CoverageManager) (w : World) :
  gentle (ipapp self) w →
  local_yum_repo_data w ≠ None →
  command_fails (ipapp self) ApplyPatch w →
  ¬ marker_on (hosts w) (ipapp self) →
  (_install_coverage_hook self w).1 = Ok false ∧
  (install self w).1 = Ok tt ∧
  ¬ marker_on (hosts (install self w).2) (ipapp self) ∧
  evm_running (host_of (hosts (install self w).2) (ipapp self)) = true.
Proof.
  intros Hg Hd Hp Hm.
  pose proof (stable_failed_patch (ipapp self)) as HI.
  split.
  - destruct (keeps_hook self _ _ HI) with (w := w)
      as (b & w1 & E & _ & _ & Hm1); try done.
    { intros w' [[_ ?] _]. by left. }
    rewrite E. destruct b; [|done].
    by apply hook_establishes_marker in E.
  - destruct (hoare_install self _ _ HI) with (w := w)
      as ([] & w1 & -> & (_ & _ & Hm1) & Hrun); try done.
    + intros w' [[_ ?] _]. by left.
    + by intros w' [[(_ & Hr & _) _] _].
    + by intros w' [[(_ & _ & Hw) _] _].
Qed.

(** *** Installing [patch] from the temporary repository *)

Lemma stable_unpatched h bi :
  Stable h (λ c, c ≠ ApplyPatch)
    (λ w, (no_throw w ∧ command_fails h RpmQueryPatch w ∧
           basic_info w = bi) ∧ ¬ marker_on (hosts w) h).
Proof.
  split; [intros c e w [(Hn & _) _]; apply Hn|..].
  - intros e w H. exact H.
  - intros w H. exact H.
  - intros fs w H. exact H.
  - intros c t w Hc (He & Hm) Ho. split; [exact He|]. by apply exec_no_marker.
  - intros r w Hr (He & Hm). split; [exact He|]. by apply put_no_marker.
  - intros w (He & Hm). split; [exact He|]. by apply not_marker_update.
Qed.

Lemma yields_app {A B} P (m : M A) e1 Q (k : A → M B) e2 S :
  yields P m e1 Q → (∀ a, yields (Q a) (k a) e2 S) →
  yields P (bind m k) (e1 ++ e2) S.
Proof.
  intros Hm Hk w Hw. destruct (Hm w Hw) as (a & w1 & E & Ht & Hq).
  destruct (Hk a w1 Hq) as (b & w2 & E2 & Ht2 & Hs).
  exists b, w2. rewrite bind_run, E. split; [done|]. split; [|done].
  by rewrite Ht2, Ht, <- app_assoc.
Qed.

(** The hook step up to the query for [patch], on an appliance without
    the marker file where the query fails. *)
Ltac hook_probe_steps self HI :=
  rewrite hook_unfold; unfold hook_probe, log_info;
  first [eapply fails_cons | eapply yields_cons];
    [by apply (yields_command self _ _ HI)|]; intros ?; cbv beta;
  first [eapply fails_cons | eapply yields_cons];
    [by apply (yields_put_file self _ _ HI)|]; intros ?; cbv beta;
  first [eapply fails_cons | eapply yields_cons];
    [apply (yields_run_command self _ _ HI TestMarker None
       (λ r, success r = false)); [done | | done];
     intros ? [_ ?] _; by apply bool_decide_eq_false_2|];
  intros ?; first [apply fails_assume | apply yields_assume]; intros ->;
  first [eapply fails_cons | eapply yields_cons];
    [by apply (yields_record self _ _ HI)|]; intros ?; cbv beta;
  first [eapply fails_cons | eapply yields_cons];
    [by apply (yields_put_file self _ _ HI)|]; intros ?; cbv beta;
  first [eapply fails_cons | eapply yields_cons];
    [apply (yields_run_command self _ _ HI RpmQueryPatch None
       (λ r, success r = false)); [done | | done];
     intros ? [(_ & Hq & _) _] Ho; by destruct (Hq _ _ Ho)|];
  intros ?; first [apply fails_assume | apply yields_assume]; intros ->;
  cbn [negb].

Lemma hook_fails_without_repo_data self w0 :
  local_yum_repo_data w0 = None →
  let I := λ w, (no_throw w ∧ command_fails (ipapp self) RpmQueryPatch w ∧
                 basic_info w = basic_info w0) ∧
                ¬ marker_on (hosts w) (ipapp self) in
  fails I (_install_coverage_hook self) (hook_probe self)
    (KeyError (missing_key w0)) I.
Proof.
  intros Hd0 I. pose proof (stable_unpatched (ipapp self) (basic_info w0)) as HI.
  hook_probe_steps self HI.
  apply fails_first. intros w Hw. exists w. rewrite with_repo_data_run.
  pose proof Hw as [(_ & _ & Hb) _].
  unfold local_yum_repo_data, missing_key in *. rewrite Hb, Hd0, app_nil_r.
  done.
Qed.

Lemma hook_uses_temporary_repo self w0 d :
  local_yum_repo_data w0 = Some d →
  yields
    (λ w, (no_throw w ∧ command_fails (ipapp self) RpmQueryPatch w ∧
           basic_info w = basic_info w0) ∧
          ¬ marker_on (hosts w) (ipapp self))
    (_install_coverage_hook self)
    (hook_probe self ++ yum_steps self d ++
       [Called (RunCommand (ipapp self) ApplyPatch None)])
    (λ _ _, True).
Proof.
  intros Hd0.
  pose proof (stable_unpatched (ipapp self) (basic_info w0)) as HI.
  set (I := λ w : World, _) in *.
  cbn [app hook_probe]. hook_probe_steps self HI.
  apply (yields_app _ _ _ (λ _, I)).
  - intros w Hw. rewrite with_repo_data_run.
    pose proof Hw as [(_ & _ & Hb) _].
    unfold local_yum_repo_data in *. rewrite Hb, Hd0.
    by apply (yields_yum_setup self _ _ HI (λ c Hc, Hc)).
  - intros ?. apply (yields_cons _ _ _ (λ _ _, True)); [|intros r; by apply yields_ret].
    apply yields_run_command_wp. intros w [(Hn & _) _].
    specialize (Hn (clock w) (RunCommand (ipapp self) ApplyPatch None)).
    destruct (oracle w (clock w) _) as [| |e]; [done | done | by destruct (Hn e)].
Qed.

Lemma simplecov_no_restart self :
  preserves (emits not_restart) (_install_simplecov self).
Proof.
  pose proof (emits_frame not_restart) as F.
  unfold _install_simplecov, log_info. cbv zeta.
  walk_in (emits not_restart) not_restart (λ _ _ : gmap string HostState, True)
    ltac:(first [done | intros ? ?; apply not_restart_report]).
Qed.

(** X7. When the appliance lacks both the marker file and the [patch]
    package and [cfme_data] does not give the four values of the
    repository ([basic_info], its [local_yum_repo] entry or one of the
    keys [name], [baseurl], [enabled], [gpgcheck] is missing), the hook
    step raises the [KeyError] of the first missing key right after the
    query for the package: nothing is written locally, no repository is
    uploaded and the patch is not applied. [install()] raises the same
    error and does not restart the server. *)
Theorem hook_needs_repo_data (self : CoverageManager) (w : World) :
  no_throw w →
  command_fails (ipapp self) RpmQueryPatch w →
  local_yum_repo_data w = None →
  ¬ marker_on (hosts w) (ipapp self) →
  (_install_coverage_hook self w).1 = Raise (KeyError (missing_key w)) ∧
  new_events w (_install_coverage_hook self w).2 = hook_probe self ∧
  (install self w).1 = Raise (KeyError (missing_key w)) ∧
  Forall not_restart (new_events w (install self w).2).
Proof.
  intros Hn Hq Hd Hm.
  pose proof (stable_unpatched (ipapp self) (basic_info w)) as HI.
  pose proof (hook_fails_without_repo_data self w Hd) as Hf. cbv zeta in Hf.
  set (Inv := λ w : World, _) in *.
  assert (Inv w) as Hw by done.
  destruct (Hf w Hw) as (w' & E & Ht & _).
  rewrite E. split; [done|]. split; [by apply new_events_app|].
  destruct (keeps_print_message self _ _ HI self "installing" w Hw)
    as ([] & w1 & E1 & Hw1).
  destruct (keeps_simplecov self _ _ HI (λ c Hc, Hc) w1 Hw1)
    as ([] & w2 & E2 & Hw2).
  destruct (Hf w2 Hw2) as (w3 & E3 & Ht3 & _).
  unfold install. rewrite bind_run, E1, bind_run, E2, bind_run, E3.
  split; [done|]. simpl.
  pose proof (emits_frame not_restart) as F.
  assert (emits not_restart w w3) as He; [|by apply emits_new_events in He as [_ ?]].
  trans w1.
  { assert (preserves (emits not_restart) (print_message self "installing")) as Hp
      by (apply (preserves_print_message (emits not_restart) not_restart
            (λ _ _, True)); [done | intros; apply not_restart_report]).
    specialize (Hp w). by rewrite E1 in Hp. }
  trans w2.
  { pose proof (simplecov_no_restart self w1) as Hs. by rewrite E2 in Hs. }
  exists (hook_probe self). split; [done|]. by repeat constructor.
Qed.

(** X8. When the appliance lacks the marker file and the [patch]
    package, the hook step sets up a temporary repository only to install
    the package: after the query it writes the repository file locally
    from [cfme_data], uploads it, runs [yum install -y patch], removes the
    repository file from the appliance again and only then applies the
    patch, in this order and whatever the commands report. *)
Theorem hook_installs_patch_from_temporary_repo
    (self : CoverageManager) (w : World) (d : RepoData) :
  no_throw w →
  command_fails (ipapp self) RpmQueryPatch w →
  local_yum_repo_data w = Some d →
  ¬ marker_on (hosts w) (ipapp self) →
  is_Ok (_install_coverage_hook self w).1 = true ∧
  new_events w (_install_coverage_hook self w).2 =
    hook_probe self ++ yum_steps self d ++
      [Called (RunCommand (ipapp self) ApplyPatch None)].
Proof.
  intros Hn Hq Hd Hm.
  destruct (hook_uses_temporary_repo self w d Hd w) as (b & w' & E & Ht & _);
    [done|].
  rewrite E. split; [done | by apply new_events_app].
Qed.

(** *** A standalone session that nothing disturbs *)

Lemma stable_undisturbed h st av :
  Stable h (λ _, True)
    (λ w, undisturbed w ∧ store w = st ∧ appliance_version w = av).
Proof.
  split; [intros c e w [Hu _]; by rewrite Hu|..].
  all: intros; match goal with H : _ ∧ _ |- _ => exact H end.
Qed.

Lemma sessionfinish_standalone_run x w :
  parallelizer_role (store w) ≠ Some "master" →
  parallelizer_role (store w) ≠ Some "slave" →
  version_lt (appliance_version w (current_appliance (store w))) "5.8" = false →
  pytest_sessionfinish x w =
  (collect (current_manager (store w));; merge (current_manager (store w))) w.
Proof.
  intros Hnm Hns Hv. unfold pytest_sessionfinish.
  rewrite bind_run. unfold get_store at 1.
  rewrite !bind_run. rewrite decide_True by done.
  rewrite bind_run, manager_run, Hv. rewrite decide_False by done.
  pose proof (collect_same_env (current_manager (store w)) w) as (Hst & Hver & _).
  destruct (collect _ w) as [[[]|e] w1]; simpl in *; [|done].
  by rewrite bind_run, manager_run, Hst, Hver, Hv.
Qed.

(** X9. A standalone session on a supported appliance that nothing
    disturbs goes through all three phases: it installs, runs the tests,
    collects and merges, in this order, and ends with [EXIT_OK]; the
    archive of the raw reports is then in the local output directory and
    the server of the appliance is running. *)
Theorem undisturbed_standalone_session (w : World) :
  undisturbed w →
  parallelizer_role (store w) ≠ Some "master" →
  parallelizer_role (store w) ≠ Some "slave" →
  version_lt (appliance_version w (current_appliance (store w))) "5.8" = false →
  let w' := (wrap_session w).2 in
  (wrap_session w).1 = Ok EXIT_OK ∧
  phases (new_events w w') = [Install; Collect; Merge] ∧
  TestsRun ∈ new_events w w' ∧
  coverage_results_archive ∈ local_files w' ∧
  evm_running (host_of (hosts w') (current_appliance (store w))) = true.
Proof.
  intros Hu Hnm Hns Hv.
  set (self := current_manager (store w)).
  pose proof (stable_undisturbed (ipapp self) (store w) (appliance_version w))
    as HI.
  set (Inv := λ w : World, _) in HI.
  assert (∀ w1, Inv w1 → coordinator w1 = Ok (current_appliance (store w1)))
    as Hco.
  { intros w1 (_ & Hst & _). unfold coordinator. rewrite Hst.
    by rewrite decide_False. }
  assert (∀ w1 c, Inv w1 → oracle w1 (clock w1) c = NoFault) as Hor
    by (by intros w1 c (Ho & _)).
  unfold wrap_session. cbv zeta. rewrite bind_run, pytest_configure_run.
  set (w0 := configured w).
  assert (Inv w0) as Hw0 by (by split_and!).
  assert (pytest_sessionstart w0 = (Ok tt, w0)) as ->.
  { unfold pytest_sessionstart. rewrite bind_run. unfold get_store at 1.
    by rewrite decide_False. }
  unfold pytest_main. rewrite bind_run.
  rewrite pytest_collection_finish_run by done.
  change (current_manager (store w0)) with self.
  pose proof (install_phases self w0) as [He1 Hp1].
  destruct (hoare_install self _ _ HI) with (w := w0)
    as ([] & w1 & E1 & Hw1 & Hrun1); try done.
  { intros w1 Hw1. right. by apply Hor. }
  { intros w1 Hw1. by apply Hor. }
  { intros w1 Hw1. by apply Hor. }
  rewrite E1 in He1, Hp1 |- *. simpl in He1, Hp1.
  cbn [is_Ok record act fst snd]. rewrite bind_run.
  set (w2 := emit TestsRun w1).
  assert (Inv w2) as Hw2 by exact Hw1.
  assert (emits (λ _, True) w1 w2) as He2
    by (exists [TestsRun]; by repeat constructor).
  pose proof Hw2 as (Hu2 & Hst2 & Hav2).
  rewrite sessionfinish_standalone_run
    by (rewrite ?Hst2, ?Hav2; done).
  rewrite Hst2. fold self.
  pose proof (collect_phases self w2) as [He3 Hp3].
  destruct (hoare_collect self _ _ HI) with (w := w2)
    as ([] & w3 & E3 & Hw3 & Hrun3); try done.
  { intros w3 Hw3. by apply Hor. }
  rewrite E3 in He3, Hp3. simpl in He3, Hp3.
  pose proof (merge_phases self w3) as [He4 Hp4].
  destruct (hoare_merge self _ _ HI) with (w := w3)
    as ([] & w4 & E4 & Hw4 & Hrun4 & Harch); try done.
  { intros w4 Hw4. by rewrite (Hco w4 Hw4), (proj1 (proj2 Hw4)). }
  rewrite E4 in He4, Hp4. simpl in He4, Hp4.
  rewrite (bind_run (collect self)), E3, E4. simpl.
  pose proof (emits_frame (λ _ : Event, True)) as F.
  assert (new_events w w4 =
    new_events w0 w1 ++ [TestsRun] ++ new_events w2 w3 ++ new_events w3 w4)
    as Hev.
  { change (new_events w w4) with (new_events w0 w4).
    rewrite (new_events_trans w0 w1 w4), (new_events_trans w1 w2 w4),
      (new_events_trans w2 w3 w4); try done.
    - by rewrite (new_events_app w1 w2 [TestsRun]).
    - by etrans.
    - etrans; [exact He2|]. by etrans. }
  split; [done|]. rewrite Hev. split_and!; [|set_solver|done|done].
  rewrite !phases_app, Hp1, Hp3, Hp4. done.
Qed.

(** *** What [merge()] reports *)

Lemma report_event_inj st m m' : report_event st m = report_event st m' → m = m'.
Proof.
  unfold report_event. destruct (slave_manager st); [by intros [=]|].
  destruct (parallel_session st); by intros [=].
Qed.

Lemma retrieve_outcome self w :
  let r := _retrieve_coverage_reports self w in
  (∃ cs, trace r.2 = trace w ++ map Called cs) ∧
  store r.2 = store w ∧
  (raises r.1 → local_files r.2 = local_files w) ∧
  (r.1 = Ok tt → coverage_results_archive ∈ local_files r.2).
Proof.
  unfold _retrieve_coverage_reports.
  rewrite bind_run, collection_appliance_run.
  destruct (coordinator w) as [coll|e]; simpl;
    [|split_and!; [exists []; by rewrite app_nil_r | done..]].
  rewrite bind_run, run_command_run. cbv zeta.
  destruct (oracle w (clock w) _) as [|out|e]; simpl;
    [| |split_and!; [by exists [RunCommand coll TarRawCoverage None] | done..]].
  all: unfold get_file, bind, external; wsimpl.
  all: match goal with |- context [oracle ?a (S ?t) ?c] =>
         destruct (oracle a (S t) c) as [|out'|e'] end; wsimpl.
  all: try case_bool_decide; wsimpl.
  all: split_and!;
    [ exists [RunCommand coll TarRawCoverage None;
              GetFile coll raw_archive coverage_results_archive];
      simpl; by rewrite <- app_assoc
    | done
    | first [done | by intros [? [=]]]
    | first [done | intros _; apply elem_of_union_l; by apply elem_of_singleton] ].
Qed.

(** X10. [merge()] reports that merging failed exactly when fetching the
    raw reports raised; it then logs the exception that was raised and
    leaves the local output directory as it was. When fetching returned,
    the archive is in the local output directory. *)
Theorem merge_reports_failure_iff_not_fetched (self : CoverageManager) (w : World) :
  let fetch := _retrieve_coverage_reports self (announce self "merging reports" w) in
  let w' := (merge self w).2 in
  (report_event (store w) "coverage: merging reports failed, error has been logged"
     ∈ new_events w w' ↔ raises fetch.1) ∧
  (∀ exc, fetch.1 = Raise exc →
     LogException (log self) exc ∈ new_events w w' ∧
     local_files w' = local_files w) ∧
  (fetch.1 = Ok tt → coverage_results_archive ∈ local_files w').
Proof.
  intros fetch w'. subst w'.
  unfold merge. rewrite bind_run, print_message_run.
  fold (announce self "merging reports" w). unfold try_except. fold fetch.
  pose proof (retrieve_outcome self (announce self "merging reports" w))
    as ([cs Ht] & Hst & Hraise & Hok).
  fold fetch in Ht, Hst, Hraise, Hok.
  assert (trace fetch.2 = trace w ++
    (LogInfo (log self) "merging reports" ::
     report_event (store w) "coverage: merging reports" :: map Called cs)) as Hfull.
  { rewrite Ht. unfold announce. simpl. by rewrite <- !app_assoc. }
  destruct fetch as [[[]|exc] w2]; simpl in *.
  - split_and!; [|done|done].
    split; [|by intros [? [=]]].
    rewrite (new_events_app _ _ _ Hfull), !elem_of_cons, list_elem_of_fmap.
    intros [Heq|[Heq|(c & Heq & _)]].
    + unfold report_event in Heq. destruct (slave_manager _); [done|].
      by destruct (parallel_session _).
    + by apply report_event_inj in Heq.
    + by apply report_not_call in Heq.
  - set (wf := emit (report_event (store w2) _) _).
    assert (new_events w wf =
        (LogInfo (log self) "merging reports" ::
         report_event (store w) "coverage: merging reports" :: map Called cs) ++
        [ LogError (log self) "Error merging coverage reports";
          LogException (log self) exc;
          LogInfo (log self) "merging reports failed, error has been logged";
          report_event (store w)
            "coverage: merging reports failed, error has been logged" ]) as Hev.
    { apply new_events_app. unfold wf. simpl. rewrite Hfull, Hst. simpl.
      by rewrite <- !app_assoc. }
    clearbody wf. rewrite Hev. split_and!.
    + split; [by eexists|]. intros _. rewrite elem_of_app, !elem_of_cons. auto 10.
    + intros exc' [= <-]. split.
      * rewrite elem_of_app, !elem_of_cons. auto 10.
      * apply Hraise. by eexists.
    + done.
Qed.

(** *** A session on an appliance below 5.8 *)

(** X11. With an appliance below 5.8 a session does nothing: every hook
    that asks for the manager gets the [ApplianceVersionException], so no
    call is made, no test is run and nothing is announced. On a master
    the exception of session start makes the session an internal error;
    on the other processes the hook at session finish raises it again. *)
Theorem old_appliance_session (w : World) :
  version_lt (appliance_version w (current_appliance (store w))) "5.8" = true →
  let exc := ApplianceVersionException
    "Coverage statistics collection is only supported in appliances >= 5.8" in
  let run := wrap_session w in
  (parallelizer_role (store w) = Some "master" → run.1 = Ok EXIT_INTERNALERROR) ∧
  (parallelizer_role (store w) ≠ Some "master" → run.1 = Raise exc) ∧
  new_events w run.2 = [] ∧
  hosts run.2 = hosts w.
Proof.
  intros Hv exc run.
  assert (∃ w0, trace w0 = trace w ++ [] ∧ hosts w0 = hosts w ∧
    run = (if decide (parallelizer_role (store w) = Some "master")
           then Ok EXIT_INTERNALERROR else Raise exc, w0)) as (w0 & Ht & Hh & ->).
  { subst run. unfold wrap_session. rewrite bind_run, pytest_configure_run.
    set (w0 := configured w). exists w0.
    assert (store w0 = store w ∧ appliance_version w0 = appliance_version w ∧
            trace w0 = trace w ++ [] ∧ hosts w0 = hosts w) as (Hst & Hav & Ht & Hh).
    { by rewrite app_nil_r. }
    assert (manager w0 = (Raise exc, w0)) as Hm
      by (by rewrite manager_run, Hst, Hav, Hv).
    clearbody w0. split; [done|]. split; [done|].
    unfold pytest_sessionstart. rewrite bind_run. unfold get_store at 1.
    rewrite Hst.
    destruct (decide (parallelizer_role (store w) = Some "master")) as [Hr|Hr].
    - by rewrite bind_run, Hm.
    - simpl. unfold pytest_main. rewrite bind_run.
      assert (pytest_collection_finish (ret tt) w0 = (Raise exc, w0)) as ->.
      { unfold pytest_collection_finish. simpl. rewrite bind_run.
        unfold get_store at 1. rewrite Hst, decide_True by done.
        by rewrite !bind_run, Hm. }
      simpl. rewrite bind_run.
      assert (pytest_sessionfinish EXIT_INTERNALERROR w0 = (Raise exc, w0)) as ->.
      { unfold pytest_sessionfinish. rewrite bind_run. unfold get_store at 1.
        rewrite !bind_run, Hst, decide_True by done.
        by rewrite bind_run, Hm. }
      done. }
  simpl. split_and!; [| |by apply new_events_app|done].
  - intros Hr. by rewrite decide_True.
  - intros Hr. by rewrite decide_False.
Qed.

End Coverage.

(** * The report merger *)

Module ReportMerger.

(** Modelled from the spec: the merger itself, the script
    [coverage_merger.rb] that [_merge_coverage_reports] uploads and runs
    on the collection appliance, is not among the sources (and
    [CoverageManager.merge] no longer calls it). 4.3: a raw result set
    maps a file identifier to its per-line hit counts, a count being
    absent ([None]) for a line that is not executable; the merged value
    at a line is null if all contributing values are null and otherwise
    the sum of the non-null ones; a file whose line counts disagree
    between sets is a [MismatchedFileShape], excluded from the merged
    output and flagged. The merge below combines the sets two at a time. *)
Definition merge_line (a b : option N) : option N :=
  match a, b with
  | None, None => None
  | Some x, None => Some x
  | None, Some y => Some y
  | Some x, Some y => Some (x + y)%N
  end.

Inductive Entry : Type :=
  | Lines (l : list (option N))
  | MismatchedFileShape.

#[global] Instance Entry_eq_dec : EqDecision Entry.
Proof. solve_decision. Defined.

Definition merge_entry (a b : Entry) : Entry :=
  match a, b with
  | Lines l1, Lines l2 =>
      if decide (length l1 = length l2) then Lines (zip_with merge_line l1 l2)
      else MismatchedFileShape
  | _, _ => MismatchedFileShape
  end.

Definition merge_two (a b : gmap string Entry) : gmap string Entry :=
  union_with (λ x y, Some (merge_entry x y)) a b.

Definition merge_all (sets : list (gmap string (list (option N))))
    : gmap string Entry :=
  foldr (λ s acc, merge_two (Lines <$> s) acc) ∅ sets.

(** The merged result set: the files that merged. *)
Definition merged (sets : list (gmap string (list (option N))))
    : gmap string (list (option N)) :=
  omap (λ e, match e with Lines l => Some l | MismatchedFileShape => None end)
    (merge_all sets).

(** The files flagged as mismatched. *)
Definition flagged (sets : list (gmap string (list (option N)))) : gset string :=
  dom (filter (λ kv, kv.2 = MismatchedFileShape) (merge_all sets)).

(** The merge rule in the words of the spec: the sequences that
    contribute to a file, their values at a line, and the value the rule
    gives that line. *)
Definition contributions (f : string)
    (sets : list (gmap string (list (option N)))) : list (list (option N)) :=
  omap (λ s : gmap string (list (option N)), s !! f) sets.

Definition column (i : nat) (cs : list (list (option N))) : list (option N) :=
  omap (λ l : list (option N), l !! i) cs.

Definition rule_value (col : list (option N)) : option N :=
  if forallb (λ v, bool_decide (v = None)) col then None
  else Some (foldr N.add 0%N (omap id col)).

Definition set_a : gmap string (list (option N)) :=
  {[ "app/models/vm.rb" := [Some 1%N; None; Some 3%N] ]}.

Definition set_b : gmap string (list (option N)) :=
  {[ "app/models/vm.rb" := [Some 2%N; None; Some 0%N] ]}.

Lemma sum_all_null col :
  forallb (λ v, bool_decide (v = None)) col = true →
  foldr N.add 0%N (omap id col) = 0%N.
Proof.
  induction col as [|[x|] col IH]; simpl; [done | done | exact IH].
Qed.

Lemma rule_value_cons v col :
  rule_value (v :: col) = merge_line v (rule_value col).
Proof.
  unfold rule_value. destruct v as [x|]; simpl.
  - destruct (forallb _ col) eqn:E; [|done].
    f_equal. etrans; [|apply N.add_0_r]. f_equal. by apply sum_all_null.
  - by destruct (forallb _ col).
Qed.

Lemma merge_all_cons s sets f :
  merge_all (s :: sets) !! f =
  union_with (λ x y, Some (merge_entry x y)) (Lines <$> s !! f) (merge_all sets !! f).
Proof.
  unfold merge_all at 1. simpl. fold (merge_all sets).
  unfold merge_two. by rewrite lookup_union_with, lookup_fmap.
Qed.

(** What [merge_all] holds for a file whose contributions all have [L]
    lines. *)
Lemma merge_all_rule sets f L :
  Forall (λ l, length l = L) (contributions f sets) →
  match contributions f sets with
  | [] => merge_all sets !! f = None
  | cs =>
      ∃ m, merge_all sets !! f = Some (Lines m) ∧ length m = L ∧
           ∀ i, i < L → m !! i = Some (rule_value (column i cs))
  end.
Proof.
  induction sets as [|s sets IH]; [done|].
  rewrite merge_all_cons.
  change (contributions f (s :: sets)) with
    (match s !! f with
     | Some l => l :: contributions f sets
     | None => contributions f sets
     end).
  destruct (s !! f) as [l|] eqn:Es.
  2:{ change (Lines <$> None) with (@None Entry).
      assert (∀ g (x : option Entry), union_with g None x = x) as ->
        by (by intros g []).
      exact IH. }
  change (Lines <$> Some l) with (Some (Lines l)).
  intros Hall. apply Forall_cons in Hall as [Hl Hall]. specialize (IH Hall).
  assert (∀ i, i < L → ∃ v, l !! i = Some v ∧
            ∀ cs, column i (l :: cs) = v :: column i cs) as Hcol.
  { intros i Hi. destruct (lookup_lt_is_Some_2 l i) as [v Hv]; [lia|].
    exists v. split; [done|]. intros cs. unfold column. simpl. by rewrite Hv. }
  destruct (contributions f sets) as [|c cs] eqn:Ec.
  - rewrite IH. exists l. split_and!; [done | done |].
    intros i Hi. destruct (Hcol i Hi) as (v & Hv & ->).
    rewrite rule_value_cons, Hv. by destruct v.
  - destruct IH as (m & Hm & Hlen & Hrule). rewrite Hm.
    change (union_with _ (Some (Lines l)) (Some (Lines m)))
      with (Some (merge_entry (Lines l) (Lines m))).
    unfold merge_entry. rewrite decide_True by congruence.
    eexists. split_and!; [done | |].
    + rewrite length_zip_with. lia.
    + intros i Hi. destruct (Hcol i Hi) as (v & Hv & ->).
      by rewrite lookup_zip_with, Hv, (Hrule i Hi), rule_value_cons.
Qed.

(** C5. For any input sets and any file present in at least one of
    them, all of whose contributing sequences have [L] lines, the merge
    produces for that file a sequence of [L] values, the value at line
    [i] being null when all contributing values at [i] are null and
    otherwise the sum of the non-null ones. *)
Theorem merge_rule (sets : list (gmap string (list (option N))))
    (f : string) (L : nat) :
  contributions f sets ≠ [] →
  Forall (λ l, length l = L) (contributions f sets) →
  ∃ m, merged sets !! f = Some m ∧ length m = L ∧
       ∀ i, i < L → m !! i = Some (rule_value (column i (contributions f sets))).
Proof.
  intros Hne Hall. pose proof (merge_all_rule sets f L Hall) as H.
  destruct (contributions f sets) as [|c cs]; [done|].
  destruct H as (m & Hm & Hlen & Hrule). exists m.
  unfold merged. by rewrite lookup_omap, Hm.
Qed.

(** The example of the spec, obtained from the rule. *)
Lemma merge_rule_example :
  merged [set_a; set_b] !! "app/models/vm.rb" = Some [Some 3%N; None; Some 3%N].
Proof.
  destruct (merge_rule [set_a; set_b] "app/models/vm.rb" 3) as (m & Hm & Hlen & Hi).
  - by vm_compute.
  - vm_compute. by repeat constructor.
  - rewrite Hm. f_equal.
    pose proof (Hi 0 ltac:(lia)) as H0. pose proof (Hi 1 ltac:(lia)) as H1.
    pose proof (Hi 2 ltac:(lia)) as H2.
    destruct m as [|a [|b [|c [|d m]]]]; try done.
    vm_compute in H0, H1, H2. by simplify_eq.
Defined.

End ReportMerger.

(** * Concrete runs *)

Module Demo.

(** Versions as dotted numbers, compared component by component; every
    numbered version is below ["latest"]. *)
Definition Version : Type := list nat.

Fixpoint lex_lt (a b : list nat) : bool :=
  match a, b with
  | _, [] => false
  | [], _ :: _ => true
  | x :: a', y :: b' =>
      if (x <? y)%nat then true
      else if (y <? x)%nat then false
      else lex_lt a' b'
  end.

Definition version_lt (v : Version) (s : string) : bool :=
  if decide (s = "5.8") then lex_lt v [5; 8]
  else bool_decide (s = "latest").

Definition quote (s : string) : string := "'" +:+ s +:+ "'".
Definition scripts_data_path : string := "/cfme/data".
Definition log_path : string := "/cfme/log".
Definition conf_path : string := "/cfme/conf".

(** An environment that disturbs nothing, one that loses every transfer
    and one whose web UI never answers. *)
Definition calm : nat → Call → Fault := λ _ _, NoFault.
Definition lossy : nat → Call → Fault := λ _ c,
  match c with
  | RunCommand _ (ScpCoverage _ _) _ => CommandFails "lost connection"
  | _ => NoFault
  end.
Definition deaf : nat → Call → Fault := λ _ c,
  match c with
  | WaitForWebUi _ => CommandFails "timed out"
  | _ => NoFault
  end.

(** Appliance 10.0.0.9 is a 5.7, the others are 5.9. *)
Definition versions (h : string) : Version :=
  if decide (h = "10.0.0.9") then [5; 7; 3] else [5; 9; 0].

Definition world (st : Store) (saved : option string)
    (oracle : nat → Call → Fault) : World Version :=
  {| store := st; conf_runtime := None; conf_saved := saved;
     basic_info := Some None; appliance_version := versions;
     ssh_password := λ _, "smartvm"; hosts := ∅; local_files := ∅;
     oracle := oracle; clock := 0; trace := [] |}.

Definition standalone : Store :=
  {| parallelizer_role := None; slave_manager := None;
     parallel_session := false; current_appliance := "10.0.0.1" |}.
Definition master : Store :=
  {| parallelizer_role := Some "master"; slave_manager := None;
     parallel_session := true; current_appliance := "10.0.0.1" |}.
Definition slave : Store :=
  {| parallelizer_role := Some "slave"; slave_manager := Some "slave01";
     parallel_session := false; current_appliance := "10.0.0.2" |}.

(** An appliance patched by a first, undisturbed [install()]. *)
Definition installed_once : World Version :=
  (install Version version_lt scripts_data_path log_path
     (current_manager standalone) (world standalone None calm)).2.

(** An environment in which every remote command fails, and nothing
    else does. *)
Definition flaky : nat → Call → Fault := λ _ c,
  match c with
  | RunCommand _ _ _ => CommandFails "exit status 1"
  | _ => NoFault
  end.

(** The repository [cfme_data] names in the lab. *)
Definition lab_repo : RepoData :=
  {| repo_name := "lab"; repo_baseurl := "http://repo.lab/rhel7";
     repo_enabled := "1"; repo_gpgcheck := "0" |}.

Definition lab_repo_entry : gmap string string :=
  <["name" := "lab"]> (<["baseurl" := "http://repo.lab/rhel7"]>
    (<["enabled" := "1"]> (<["gpgcheck" := "0"]> ∅))).

(** A standalone world whose [cfme_data] has the [local_yum_repo]
    entry. *)
Definition provisioned (oracle : nat → Call → Fault) : World Version :=
  {| store := standalone; conf_runtime := None; conf_saved := None;
     basic_info := Some (Some lab_repo_entry); appliance_version := versions;
     ssh_password := λ _, "smartvm"; hosts := ∅; local_files := ∅;
     oracle := oracle; clock := 0; trace := [] |}.

(** A standalone run against the 5.7 appliance. *)
Definition outdated : Store :=
  {| parallelizer_role := None; slave_manager := None;
     parallel_session := false; current_appliance := "10.0.0.9" |}.

Lemma sessionfinish_dispatch_standalone :
  let w := world standalone None calm in
  phases (new_events Version w
    (pytest_sessionfinish Version version_lt quote log_path EXIT_OK w).2) =
  [Collect; Merge].
Proof.
  intros w.
  destruct (sessionfinish_dispatch Version version_lt quote log_path EXIT_OK w)
    as (_ & _ & H); [by vm_compute|].
  destruct H as [_ H]; [done | done |].
  vm_compute in H. vm_compute. exact H.
Defined.

Lemma old_appliance_rejected_5_7 :
  let w := world standalone None calm in
  bind Version (CoverageManager_init Version version_lt "10.0.0.9")
    (λ self, collect Version quote self) w =
  (Raise (ApplianceVersionException
     "Coverage statistics collection is only supported in appliances >= 5.8"), w).
Proof.
  intros w.
  destruct (old_appliance_rejected Version version_lt quote scripts_data_path
    log_path "10.0.0.9" w) as (_ & _ & H & _); [by vm_compute|].
  exact H.
Defined.

Lemma collect_restarts_service_standalone :
  let w := world standalone None calm in
  let self := current_manager standalone in
  evm_running (host_of (hosts Version (collect Version quote self w).2)
    "10.0.0.1") = true.
Proof.
  intros w self.
  destruct (collect_restarts_service Version quote self w
    (collect Version quote self w).2) as [H _]; [by vm_compute|].
  exact H.
Defined.

(** A slave on 10.0.0.2 whose transfer to the coordinator 10.0.0.1 is
    lost. *)
Lemma collect_reports_best_effort_lossy :
  let w := world slave (Some "10.0.0.1") lossy in
  let self := current_manager slave in
  let run := _collect_reports Version quote self w in
  run.1 = Ok tt ∧
  coverage_dir (host_of (hosts Version run.2) "10.0.0.1") = ∅ ∧
  bind Version (_collect_reports Version quote self)
    (λ _, restart_evm_service Version (ipapp self)) w =
  restart_evm_service Version (ipapp self) run.2.
Proof.
  intros w self run.
  destruct (collect_reports_best_effort Version quote self w "10.0.0.1")
    as (_ & _ & _ & H); [done | done | by intros e |].
  destruct (H "lost connection") as (H1 & _ & H3 & H4); [done | done |].
  split; [exact H1|]. split; [|exact H4].
  etrans; [exact H3|]. by vm_compute.
Defined.

(** A standalone run whose appliance never answers the health check. *)
Lemma install_failure_aborts_deaf :
  let w := world standalone None deaf in
  (wrap_session Version version_lt quote scripts_data_path conf_path log_path w).1
    ≠ Ok EXIT_OK ∧
  TestsRun ∉ new_events Version w
    (wrap_session Version version_lt quote scripts_data_path conf_path log_path w).2.
Proof.
  intros w.
  destruct (install_failure_aborts Version version_lt quote scripts_data_path
    conf_path log_path w) as (_ & H); [done | by vm_compute | by right |].
  exact H.
Defined.

Lemma patch_step_idempotent_second_install :
  let self := current_manager standalone in
  let again :=
    install Version version_lt scripts_data_path log_path self installed_once in
  Forall no_patch (new_events Version installed_once again.2) ∧
  marker_on (hosts Version again.2) "10.0.0.1".
Proof.
  intros self again.
  destruct (patch_step_idempotent Version version_lt quote scripts_data_path
    log_path self installed_once) as (_ & _ & _ & H).
  - unfold marker_on. apply (bool_decide_unpack _). by vm_compute.
  - done.
  - exact H.
Defined.

(** The slave of a run reads what the master of that run saved, when it
    starts and when its session-finish hook runs, and sends its reports
    there. *)
Lemma collection_appliance_agreed_run :
  let wm := world master None calm in
  let saved := conf_saved Version (pytest_sessionstart Version version_lt wm).2 in
  let ws := world slave saved calm in
  let wf :=
    at_sessionfinish Version version_lt scripts_data_path conf_path log_path ws in
  let evs :=
    new_events Version ws
      (wrap_session Version version_lt quote scripts_data_path conf_path
         log_path ws).2 in
  collection_appliance Version (current_manager slave) ws = (Ok "10.0.0.1", ws) ∧
  collection_appliance Version (current_manager slave) wf = (Ok "10.0.0.1", wf) ∧
  Forall (sends_to "10.0.0.1") evs ∧
  Called (RunCommand "10.0.0.2" (ScpCoverage "10.0.0.1" "'smartvm'") (Some 1800))
    ∈ evs.
Proof.
  intros wm saved ws wf evs.
  destruct (collection_appliance_agreed Version version_lt quote
    scripts_data_path conf_path log_path wm) as (_ & _ & _ & H & _ & _ & _ & H');
    [done | by vm_compute |].
  destruct (H' ws) as [H1 H2]; [done | done | done |].
  split; [by apply H|]. split; [apply H1|]. split; [exact H2|].
  apply (bool_decide_unpack _). by vm_compute.
Defined.

(** C7, the claim as stated fails: on a master process nothing has been
    collected (the trace is empty), and [merge()], called directly or by
    the session-finish hook, is not rejected: it returns normally, having
    archived the raw reports on the coordinator and fetched the archive. *)
Lemma merge_before_collect_not_rejected :
  let w := world master None calm in
  let self := current_manager master in
  let run := merge Version log_path self w in
  trace Version w = [] ∧
  run.1 = Ok tt ∧
  Called (RunCommand "10.0.0.1" TarRawCoverage None) ∈ trace Version run.2 ∧
  "/cfme/log/coverage/coverage-results.tgz" ∈ local_files Version run.2 ∧
  phases (trace Version
    (pytest_sessionfinish Version version_lt quote log_path EXIT_OK w).2) =
  [Merge].
Proof.
  intros w self run. split_and!.
  - done.
  - by vm_compute.
  - apply (bool_decide_unpack _). by vm_compute.
  - apply (bool_decide_unpack _). by vm_compute.
  - by vm_compute.
Qed.

(** A slave that was started without a master: nothing names the
    collection appliance. *)
Lemma slave_without_coordinator_calm :
  let w := world slave None calm in
  let self := current_manager slave in
  (collect Version quote self w).1 = Raise (KeyError "collection_appliance") ∧
  new_events Version w (_collect_reports Version quote self w).2 =
    [Called (stop_call self)].
Proof.
  intros w self.
  destruct (slave_without_coordinator Version quote self w)
    as (_ & H2 & H3 & _); [done | done | done | by intros e |].
  split; [exact H3 | exact H2].
Defined.

Lemma master_session_only_retrieves_calm :
  let w := world master None calm in
  Forall (retrieval_only "10.0.0.1" "/cfme/log/coverage/coverage-results.tgz")
    (new_events Version w
       (wrap_session Version version_lt quote scripts_data_path conf_path log_path w).2).
Proof.
  intros w.
  exact (master_session_only_retrieves Version version_lt quote
    scripts_data_path conf_path log_path w eq_refl).
Defined.

Lemma flaky_gentle h st : gentle Version h (provisioned flaky) ∧
  no_throw Version (world st None flaky) ∧
  no_throw Version (provisioned flaky).
Proof.
  split_and!; [split_and!|..]; try done.
  all: by intros t [] e.
Qed.

Lemma install_ignores_command_failures_flaky :
  let w := provisioned flaky in
  (install Version version_lt scripts_data_path log_path
     (current_manager standalone) w).1 = Ok tt.
Proof.
  intros w.
  destruct (install_ignores_command_failures Version version_lt
    scripts_data_path log_path (current_manager standalone) w) as [H _].
  - apply (flaky_gentle "10.0.0.1" standalone).
  - done.
  - exact H.
Defined.

Lemma install_ignores_failed_patch_flaky :
  let w := provisioned flaky in
  let self := current_manager standalone in
  (_install_coverage_hook Version scripts_data_path log_path self w).1 = Ok false ∧
  (install Version version_lt scripts_data_path log_path self w).1 = Ok tt.
Proof.
  intros w self.
  destruct (install_ignores_failed_patch Version version_lt quote
    scripts_data_path log_path self w) as (H1 & H2 & _).
  - apply (flaky_gentle "10.0.0.1" standalone).
  - done.
  - by intros t tm.
  - apply (bool_decide_unpack _). by vm_compute.
  - split; [exact H1 | exact H2].
Defined.

Lemma hook_needs_repo_data_flaky :
  let w := world standalone None flaky in
  let self := current_manager standalone in
  (install Version version_lt scripts_data_path log_path self w).1 =
    Raise (KeyError "local_yum_repo") ∧
  new_events Version w
    (_install_coverage_hook Version scripts_data_path log_path self w).2 =
  hook_probe scripts_data_path self.
Proof.
  intros w self.
  destruct (hook_needs_repo_data Version version_lt scripts_data_path log_path
    self w) as (_ & H2 & H3 & _).
  - apply (flaky_gentle "10.0.0.1" standalone).
  - by intros t tm.
  - done.
  - apply (bool_decide_unpack _). by vm_compute.
  - split; [exact H3 | exact H2].
Defined.

Lemma hook_installs_patch_from_temporary_repo_flaky :
  let w := provisioned flaky in
  let self := current_manager standalone in
  new_events Version w
    (_install_coverage_hook Version scripts_data_path log_path self w).2 =
  hook_probe scripts_data_path self ++ yum_steps log_path self lab_repo ++
    [Called (RunCommand "10.0.0.1" ApplyPatch None)].
Proof.
  intros w self.
  destruct (hook_installs_patch_from_temporary_repo Version scripts_data_path
    log_path self w lab_repo) as (_ & H).
  - apply (flaky_gentle "10.0.0.1" standalone).
  - by intros t tm.
  - done.
  - apply (bool_decide_unpack _). by vm_compute.
  - exact H.
Defined.

Lemma undisturbed_standalone_session_calm :
  let w := world standalone None calm in
  let run := wrap_session Version version_lt quote scripts_data_path conf_path log_path w in
  run.1 = Ok EXIT_OK ∧
  phases (new_events Version w run.2) = [Install; Collect; Merge] ∧
  "/cfme/log/coverage/coverage-results.tgz" ∈ local_files Version run.2.
Proof.
  intros w run.
  destruct (undisturbed_standalone_session Version version_lt quote
    scripts_data_path conf_path log_path w) as (H1 & H2 & _ & H4 & _).
  - by intros t c.
  - done.
  - done.
  - by vm_compute.
  - split_and!; [exact H1 | exact H2 | exact H4].
Defined.

Lemma old_appliance_session_5_7 :
  let w := world outdated None calm in
  let run := wrap_session Version version_lt quote scripts_data_path conf_path log_path w in
  new_events Version w run.2 = [] ∧ hosts Version run.2 = hosts Version w.
Proof.
  intros w run.
  destruct (old_appliance_session Version version_lt quote scripts_data_path
    conf_path log_path w) as (_ & _ & H3 & H4); [by vm_compute|].
  split; [exact H3 | exact H4].
Defined.

End Demo.
